(** * RAG document question answering: ingestion, retrieval, generation

    A shallow embedding of the Python modules [app/ingestor.py],
    [app/retriever.py], [app/generator.py] and [app/pipeline.py], and the
    properties of the chunker, the batched upsert, the lazily created model
    and client handles, the prompt builder and the retry loop.

    Python [int] is [Z], [str] is [string] (a character is a code point
    below 256), a [dict] whose keys are looked up with [.get] is a
    [gmap string pyval], and a dict literal with fixed keys that is only
    indexed with [d["k"]] is a record.  Module-level globals, the calls to
    the libraries and [time.sleep] live in an explicit [world] threaded
    through a state-and-exception monad. *)

From Stdlib Require Import ZArith String Ascii List Lia.
From Stdlib Require Import Floats.PrimFloat DecimalString.
From Stdlib Require Import Sorted.
From Stdlib Require DecimalZ.
From stdpp Require Import base gmap strings list.

Local Open Scope string_scope.
Local Open Scope list_scope.
Local Open Scope Z_scope.

(* ===================================================================== *)
(** ** Python values and built-ins *)
(* ===================================================================== *)

Module Py.

(** The values that travel through metadata dictionaries. *)
#[warnings="-register-all"]
Inductive pyval : Type :=
  | PNone
  | PStr (s : string)
  | PInt (z : Z)
  | PFloat (f : float)
  | PDict (d : gmap string pyval).

(** [len(s)] *)
Definition len (s : string) : Z := Z.of_nat (String.length s).

(** A slice bound is clipped the way CPython adjusts slice indices:
    a negative bound counts from the end, and both are clamped to
    [0 .. len]. *)
Definition adjust_index (i n : Z) : Z :=
  if i <? 0 then Z.max (i + n) 0 else Z.min i n.

(** [s[lo:hi]] on a string. *)
Definition str_slice (s : string) (lo hi : Z) : string :=
  let lo' := adjust_index lo (len s) in
  let hi' := adjust_index hi (len s) in
  String.substring (Z.to_nat lo') (Z.to_nat (hi' - lo')) s.

(** [l[lo:hi]] on a list. *)
Definition list_slice {A} (l : list A) (lo hi : Z) : list A :=
  let n := Z.of_nat (length l) in
  let lo' := adjust_index lo n in
  let hi' := adjust_index hi n in
  take (Z.to_nat (hi' - lo')) (drop (Z.to_nat lo') l).

(** [len(range(start, stop, step))], as CPython computes it.  A zero
    step raises in Python; no caller here passes one. *)
Definition range_len (start stop step : Z) : nat :=
  if (0 <? step) && (start <? stop)
  then Z.to_nat ((stop - start - 1) / step + 1)
  else if (step <? 0) && (stop <? start)
  then Z.to_nat ((start - stop - 1) / (- step) + 1)
  else O.

(** [range(start, stop, step)]: item [i] is [start + i * step]. *)
Definition range (start stop step : Z) : list Z :=
  map (fun i => start + Z.of_nat i * step) (seq 0 (range_len start stop step)).

(** [needle in hay] on strings. *)
Fixpoint str_contains (needle hay : string) : bool :=
  String.prefix needle hay ||
  match hay with
  | EmptyString => false
  | String _ hay' => str_contains needle hay'
  end.

(** [str(z)] for an [int]. *)
Definition str_of_int (z : Z) : string :=
  NilEmpty.string_of_int (Z.to_int z).

(** Code points on which [str.isspace] holds, below 256. *)
Definition isspace (c : ascii) : bool :=
  let n := nat_of_ascii c in
  ((9 <=? n) && (n <=? 13) || (28 <=? n) && (n <=? 32)
   || (n =? 133) || (n =? 160))%nat.

(** [bool(s.strip())]: some character is not white space. *)
Fixpoint strip_nonempty (s : string) : bool :=
  match s with
  | EmptyString => false
  | String c s' => negb (isspace c) || strip_nonempty s'
  end.

(** ["sep".join(parts)] *)
Fixpoint join (sep : string) (parts : list string) : string :=
  match parts with
  | [] => ""
  | [p] => p
  | p :: ps => p +:+ sep +:+ join sep ps
  end.

End Py.
Import Py.

(* ===================================================================== *)
(** ** The process and the world around it *)
(* ===================================================================== *)

Module World.

(** An exception raised inside the [try] of [generate_answer]: the status
    code of the API error it stands for, when it is one (429 is how the
    backend signals a rate limit), and [str(e)].  The code only ever looks
    at [str(e)]. *)
Record backend_error := mk_error { err_code : option Z; err_str : string }.

(** Exceptions that the modelled code raises or lets through.
    [APIError e] is the exception [e] of the backend, raised again. *)
Inductive exn : Type :=
  | ValueError (msg : string)
  | AttributeError
  | IndexError
  | HTTPError (status : Z)
  | APIError (e : backend_error).

(** [{"id": str, "vector": list[float], "meta": {...}}] *)
Record vector_record := mk_vector {
  v_id : string;
  v_vector : list float;
  v_meta : gmap string pyval }.

(** What the process does to the outside, in the order it does it.
    [EvBuildPrompt] marks the call of [_build_prompt]. *)
Inductive event : Type :=
  | EvOpenPdf (pdf_path : string)
  | EvLoadModel (obj : nat)
  | EvEncode (model : nat) (texts : list string)
  | EvCreateIndex
  | EvGetIndex
  | EvUpsert (batch : list vector_record)
  | EvQuery (vector : list float) (top_k : Z)
  | EvNewClient (obj : nat) (api_key : string)
  | EvBuildPrompt
  | EvGenerate (client : nat) (prompt : string)
  | EvSleep (seconds : Z).

(** The state of one Python process: the three module-level handles
    ([None] until first use; an object is named by its allocation number),
    the counters of the calls whose answers may change from call to call,
    and the events so far. *)
Record world := mk_world {
  ingestor_model : option nat;
  retriever_model : option nat;
  generator_client : option nat;
  next_obj : nat;
  uuid_calls : nat;
  create_calls : nat;
  llm_calls : nat;
  trace : list event }.

(** A fresh process: every module has just been imported. *)
Definition fresh : world := mk_world None None None 0 0 0 0 [].

(** The outcome of one call of the language-model backend inside the
    [try]: a response, whose [.text] is a string or [None] (a response
    without text), or an exception. *)
Inductive llm_outcome : Type :=
  | LlmResponse (text : option string)
  | LlmRaises (e : backend_error).

(** The libraries and services the code calls, as black boxes. *)
Record env := mk_env {
  (** [fitz]: the text of every page of the PDF at a path *)
  pdf_pages : string -> list string;
  (** the embedding model on one text *)
  encode : string -> list float;
  (** [str(uuid.uuid4())] at its n-th call *)
  uuid4 : nat -> string;
  (** status code of the n-th [POST /index/create] *)
  create_index_status : nat -> Z;
  (** [index.query(vector=..., top_k=...)] *)
  index_query : list float -> Z -> list (gmap string pyval);
  (** [os.getenv("GEMINI_API_KEY")] *)
  GEMINI_API_KEY : option string;
  (** [client.models.generate_content] at its n-th call, on a prompt *)
  generate_content : nat -> string -> llm_outcome;
  (** [str] of a float and of a dict, as an f-string renders them *)
  float_str : float -> string;
  dict_str : gmap string pyval -> string }.

(** Outcome of a call: a value, an exception, or a loop that is still
    running when the iterations allowed to it are used up. *)
Inductive result (A : Type) : Type :=
  | Ok (a : A)
  | Raise (e : exn)
  | OutOfFuel.
Arguments Ok {A} a.
Arguments Raise {A} e.
Arguments OutOfFuel {A}.

Definition M (A : Type) : Type := world -> result A * world.

Definition ret {A} (a : A) : M A := fun w => (Ok a, w).

Definition bind {A B} (m : M A) (k : A -> M B) : M B :=
  fun w =>
    match m w with
    | (Ok a, w') => k a w'
    | (Raise e, w') => (Raise e, w')
    | (OutOfFuel, w') => (OutOfFuel, w')
    end.

Definition raise {A} (e : exn) : M A := fun w => (Raise e, w).

Definition out_of_fuel {A} : M A := fun w => (OutOfFuel, w).

Definition log (ev : event) (w : world) : world :=
  mk_world (ingestor_model w) (retriever_model w) (generator_client w)
           (next_obj w) (uuid_calls w) (create_calls w) (llm_calls w)
           (trace w ++ [ev]).

Definition emit (ev : event) : M unit := fun w => (Ok tt, log ev w).

(** Constructing an object: it gets the next allocation number. *)
Definition new_object : M nat :=
  fun w =>
    (Ok (next_obj w),
     mk_world (ingestor_model w) (retriever_model w) (generator_client w)
              (S (next_obj w)) (uuid_calls w) (create_calls w) (llm_calls w)
              (trace w)).

End World.
Import World.

Notation "'let!' x ':=' c1 'in' c2" := (bind c1 (fun x => c2))
  (at level 10, x name, c1 at level 100, c2 at level 200, only parsing).
Notation "c1 ;; c2" := (bind c1 (fun _ => c2))
  (at level 100, c2 at level 200, right associativity, only parsing).

(* ===================================================================== *)
(** ** app/ingestor.py *)
(* ===================================================================== *)

Module Ingestor.

Definition INDEX_NAME : string := "documents".
Definition EMBEDDING_DIM : Z := 384.
Definition CHUNK_SIZE : Z := 500.
Definition CHUNK_OVERLAP : Z := 50.
Definition BATCH_SIZE : Z := 500.

(** [{"page": int, "text": str}] *)
Record page_info := mk_page { pg_page : Z; pg_text : string }.

(** [{"text": str, "page": int}] *)
Record chunk := mk_chunk { ck_text : string; ck_page : Z }.

(** The module-level [_model] of [ingestor.py] and its loader. *)
Definition set_model (obj : nat) : M unit :=
  fun w =>
    (Ok tt,
     mk_world (Some obj) (retriever_model w) (generator_client w)
              (next_obj w) (uuid_calls w) (create_calls w) (llm_calls w)
              (trace w)).

Definition _get_model : M nat :=
  fun w =>
    match ingestor_model w with
    | None =>
        (let! obj := new_object in
         emit (EvLoadModel obj) ;;
         set_model obj ;;
         ret obj) w
    | Some obj => ret obj w
    end.

(** The [for page_num in range(len(doc))] loop of
    [extract_text_from_pdf]. *)
Fixpoint extract_pages_loop (doc : list string) (page_num : Z)
    (pages : list page_info) : list page_info :=
  match doc with
  | [] => pages
  | text :: rest =>
      extract_pages_loop rest (page_num + 1)
        (if strip_nonempty text
         then pages ++ [mk_page (page_num + 1) text]
         else pages)
  end.

(** The [while start < len(text)] loop of [chunk_text] for one page.
    [fuel] bounds the number of iterations; [None] means that the loop is
    still running after [fuel] iterations. *)
Fixpoint chunk_page_loop (fuel : nat) (text : string) (page : Z)
    (chunk_size overlap : Z) (start : Z) (chunks : list chunk)
    : option (list chunk) :=
  match fuel with
  | O => None
  | S fuel' =>
      if start <? len text then
        let end_ := start + chunk_size in
        let chunk := str_slice text start end_ in
        chunk_page_loop fuel' text page chunk_size overlap
          (start + (chunk_size - overlap))
          (chunks ++ [mk_chunk chunk page])
      else Some chunks
  end.

(** The [for page_info in pages] loop of [chunk_text]. *)
Fixpoint chunk_pages_loop (fuel : nat) (pages : list page_info)
    (chunk_size overlap : Z) (chunks : list chunk) : option (list chunk) :=
  match pages with
  | [] => Some chunks
  | page_info :: rest =>
      match chunk_page_loop fuel (pg_text page_info) (pg_page page_info)
              chunk_size overlap 0 chunks with
      | None => None
      | Some chunks' => chunk_pages_loop fuel rest chunk_size overlap chunks'
      end
  end.

Definition chunk_text (fuel : nat) (pages : list page_info)
    (chunk_size overlap : Z) : option (list chunk) :=
  chunk_pages_loop fuel pages chunk_size overlap [].


Section WithEnv.
Variable E : env.

Definition extract_text_from_pdf (pdf_path : string) : M (list page_info) :=
  emit (EvOpenPdf pdf_path) ;;
  ret (extract_pages_loop (pdf_pages E pdf_path) 0 []).

(** [resp.status_code == 409] returns; [resp.raise_for_status()] raises
    on a 4xx or 5xx status. *)
Definition _ensure_index : M unit :=
  fun w =>
    let status := create_index_status E (create_calls w) in
    let w' :=
      log EvCreateIndex
        (mk_world (ingestor_model w) (retriever_model w) (generator_client w)
                  (next_obj w) (uuid_calls w) (S (create_calls w)) (llm_calls w)
                  (trace w)) in
    if status =? 409 then (Ok tt, w')
    else if (400 <=? status) && (status <? 600) then (Raise (HTTPError status), w')
    else (Ok tt, w').

(** [model.encode(texts, ...)]: one vector per text. *)
Definition model_encode (model : nat) (texts : list string) : M (list (list float)) :=
  emit (EvEncode model texts) ;;
  ret (map (encode E) texts).

(** [str(uuid.uuid4())] *)
Definition new_uuid : M string :=
  fun w =>
    (Ok (uuid4 E (uuid_calls w)),
     mk_world (ingestor_model w) (retriever_model w) (generator_client w)
              (next_obj w) (S (uuid_calls w)) (create_calls w) (llm_calls w)
              (trace w)).

(** The [for i, chunk in enumerate(chunks)] loop that prepares the
    records. *)
Fixpoint prepare_vectors (embeddings : list (list float)) (filename : string)
    (i : nat) (chunks : list chunk) (vectors : list vector_record)
    : M (list vector_record) :=
  match chunks with
  | [] => ret vectors
  | chunk :: rest =>
      let! id := new_uuid in
      match embeddings !! i with
      | None => raise IndexError
      | Some embedding =>
          prepare_vectors embeddings filename (S i) rest
            (vectors ++
             [mk_vector id embedding
                {[ "text" := PStr (ck_text chunk);
                   "page" := PInt (ck_page chunk);
                   "filename" := PStr filename ]}])
      end
  end.

(** The [for start in range(0, len(vectors), BATCH_SIZE)] loop. *)
Fixpoint upsert_loop (vectors : list vector_record) (starts : list Z) : M unit :=
  match starts with
  | [] => ret tt
  | start :: rest =>
      let batch := list_slice vectors start (start + BATCH_SIZE) in
      emit (EvUpsert batch) ;;
      upsert_loop vectors rest
  end.

Definition ingest_pdf (fuel : nat) (pdf_path filename : string) : M Z :=
  let! pages := extract_text_from_pdf pdf_path in
  match pages with
  | [] => ret 0
  | _ :: _ =>
      match chunk_text fuel pages CHUNK_SIZE CHUNK_OVERLAP with
      | None => out_of_fuel
      | Some [] => ret 0
      | Some ((_ :: _) as chunks) =>
          let! model := _get_model in
          let texts := map ck_text chunks in
          let! embeddings := model_encode model texts in
          let! vectors := prepare_vectors embeddings filename 0 chunks [] in
          _ensure_index ;;
          emit EvGetIndex ;;
          upsert_loop vectors
            (range 0 (Z.of_nat (length vectors)) BATCH_SIZE) ;;
          ret (Z.of_nat (length vectors))
      end
  end.

End WithEnv.
End Ingestor.

(* ===================================================================== *)
(** ** app/retriever.py *)
(* ===================================================================== *)

Module Retriever.

Definition INDEX_NAME : string := "documents".
Definition TOP_K : Z := 5.

(** The module-level [_model] of [retriever.py] and its loader. *)
Definition set_model (obj : nat) : M unit :=
  fun w =>
    (Ok tt,
     mk_world (ingestor_model w) (Some obj) (generator_client w)
              (next_obj w) (uuid_calls w) (create_calls w) (llm_calls w)
              (trace w)).

Definition _get_model : M nat :=
  fun w =>
    match retriever_model w with
    | None =>
        (let! obj := new_object in
         emit (EvLoadModel obj) ;;
         set_model obj ;;
         ret obj) w
    | Some obj => ret obj w
    end.

(** [d.get(key, default)] *)
Definition dict_get (d : gmap string pyval) (key : string) (dflt : pyval) : pyval :=
  default dflt (d !! key).

(** [item.get("meta", {})] followed by the first [meta.get]: a value that
    is not a dict has no [get]. *)
Definition item_meta (item : gmap string pyval) : M (gmap string pyval) :=
  match dict_get item "meta" (PDict ∅) with
  | PDict meta => ret meta
  | _ => raise AttributeError
  end.

(** The [for item in results] loop. *)
Fixpoint format_results (results : list (gmap string pyval))
    (chunks : list (gmap string pyval)) : M (list (gmap string pyval)) :=
  match results with
  | [] => ret chunks
  | item :: rest =>
      let! meta := item_meta item in
      format_results rest
        (chunks ++
         [ {[ "text" := dict_get meta "text" (PStr "");
              "page" := dict_get meta "page" (PInt 0);
              "filename" := dict_get meta "filename" (PStr "");
              "score" := dict_get item "similarity" (PFloat 0%float) ]} ])
  end.

Section WithEnv.
Variable E : env.

Definition retrieve (question : string) (top_k : Z) : M (list (gmap string pyval)) :=
  let! model := _get_model in
  emit (EvEncode model [question]) ;;
  let query_vector := encode E question in
  emit EvGetIndex ;;
  emit (EvQuery query_vector top_k) ;;
  let results := index_query E query_vector top_k in
  format_results results [].

End WithEnv.
End Retriever.

(* ===================================================================== *)
(** ** app/generator.py *)
(* ===================================================================== *)

Module Generator.

Definition nl : string := String (ascii_of_nat 10) EmptyString.

Definition set_client (obj : nat) : M unit :=
  fun w =>
    (Ok tt,
     mk_world (ingestor_model w) (retriever_model w) (Some obj)
              (next_obj w) (uuid_calls w) (create_calls w) (llm_calls w)
              (trace w)).

Definition placeholder_key : string := "your-gemini-api-key-here".

Definition key_error : exn :=
  ValueError ("GEMINI_API_KEY is not set. " +:+
              "Add your key to the .env file. " +:+
              "Get a free key at https://aistudio.google.com").

(** [not api_key or api_key == "your-gemini-api-key-here"] *)
Definition key_rejected (api_key : option string) : bool :=
  match api_key with
  | None => true
  | Some k => bool_decide (k = "") || bool_decide (k = placeholder_key)
  end.

Section WithEnv.
Variable E : env.

Definition _get_client : M nat :=
  fun w =>
    match generator_client w with
    | None =>
        let api_key := GEMINI_API_KEY E in
        if key_rejected api_key then raise key_error w
        else
          (let! obj := new_object in
           emit (EvNewClient obj (default "" api_key)) ;;
           set_client obj ;;
           ret obj) w
    | Some obj => ret obj w
    end.

(** What an f-string writes for a value. *)
Definition py_str (v : pyval) : string :=
  match v with
  | PNone => "None"
  | PStr s => s
  | PInt z => str_of_int z
  | PFloat f => float_str E f
  | PDict d => dict_str E d
  end.

(** One entry of [context_parts]. *)
Definition context_part (i : Z) (chunk : gmap string pyval) : string :=
  "[Chunk " +:+ str_of_int i +:+
  " | Page " +:+ py_str (Retriever.dict_get chunk "page" (PStr "?")) +:+ " | " +:+
  "File: " +:+ py_str (Retriever.dict_get chunk "filename" (PStr "?")) +:+ "]" +:+ nl +:+
  py_str (Retriever.dict_get chunk "text" (PStr "")).

(** The [for i, chunk in enumerate(chunks, start=1)] loop. *)
Fixpoint context_parts_loop (i : Z) (chunks : list (gmap string pyval))
    (context_parts : list string) : list string :=
  match chunks with
  | [] => context_parts
  | chunk :: rest =>
      context_parts_loop (i + 1) rest (context_parts ++ [context_part i chunk])
  end.

Definition instruction : string :=
  "Answer the following question using ONLY the context provided below. " +:+
  "If the answer cannot be found in the context, clearly state that " +:+
  "the information is not available in the provided document.".

Definition _build_prompt (question : string) (chunks : list (gmap string pyval)) : string :=
  let context_parts := context_parts_loop 1 chunks [] in
  let context_block := join (nl +:+ nl) context_parts in
  instruction +:+ nl +:+ nl +:+
  "Context:" +:+ nl +:+ context_block +:+ nl +:+ nl +:+
  "Question: " +:+ question +:+ nl +:+ nl +:+
  "Answer:".

(** [client.models.generate_content(model=..., contents=prompt)] *)
Definition call_generate_content (client : nat) (prompt : string) : M llm_outcome :=
  fun w =>
    (Ok (generate_content E (llm_calls w) prompt),
     log (EvGenerate client prompt)
       (mk_world (ingestor_model w) (retriever_model w) (generator_client w)
                 (next_obj w) (uuid_calls w) (create_calls w) (S (llm_calls w))
                 (trace w))).

(** The [for attempt in range(max_retries)] loop with its [try]:
    [return response.text] hands on the text of the response, [None]
    included; running off the end of the loop returns [None] too. *)
Fixpoint retry_loop (client : nat) (prompt : string) (max_retries : Z)
    (attempts : list Z) : M (option string) :=
  match attempts with
  | [] => ret None
  | attempt :: rest =>
      let! response := call_generate_content client prompt in
      match response with
      | LlmResponse text => ret text
      | LlmRaises e =>
          if str_contains "429" (err_str e) && (attempt <? max_retries - 1) then
            let wait := 20 * (attempt + 1) in
            emit (EvSleep wait) ;;
            retry_loop client prompt max_retries rest
          else raise (APIError e)
      end
  end.

Definition generate_answer (question : string) (chunks : list (gmap string pyval))
    : M (option string) :=
  let! client := _get_client in
  emit EvBuildPrompt ;;
  let prompt := _build_prompt question chunks in
  let max_retries := 3 in
  retry_loop client prompt max_retries (range 0 max_retries 1).

End WithEnv.
End Generator.

(* ===================================================================== *)
(** ** app/pipeline.py *)
(* ===================================================================== *)

Module Pipeline.

(** [{"answer": ..., "sources": ...}] *)
Record answer := mk_answer {
  a_answer : option string;
  a_sources : list (gmap string pyval) }.

Definition ask (E : env) (question : string) : M answer :=
  let! sources := Retriever.retrieve E question Retriever.TOP_K in
  let! answer := Generator.generate_answer E question sources in
  ret (mk_answer answer sources).

End Pipeline.

Import Ingestor.

(* ===================================================================== *)
(** ** Vocabulary of the properties *)
(* ===================================================================== *)

(** Ceiling of [a / b] for a positive [b]. *)
Definition ceil_div (a b : Z) : Z := (a + b - 1) / b.

(** Offsets of window number [i] of a page: where it starts and where it
    ends ([end = start + chunk_size] in the loop). *)
Definition window_start (chunk_size overlap : Z) (i : nat) : Z :=
  Z.of_nat i * (chunk_size - overlap).

Definition window_end (chunk_size overlap : Z) (i : nat) : Z :=
  window_start chunk_size overlap i + chunk_size.

(** The chunk cut by window number [i] of a page. *)
Definition window_chunk (p : page_info) (chunk_size overlap : Z) (i : nat) : chunk :=
  mk_chunk (str_slice (pg_text p) (window_start chunk_size overlap i)
                      (window_end chunk_size overlap i))
           (pg_page p).

(** Number of windows of a page: [ceil(L / (chunk_size - overlap))]. *)
Definition window_count (p : page_info) (chunk_size overlap : Z) : nat :=
  Z.to_nat (ceil_div (len (pg_text p)) (chunk_size - overlap)).

(** The windows of a page, left to right. *)
Definition page_windows (p : page_info) (chunk_size overlap : Z) : list chunk :=
  map (window_chunk p chunk_size overlap) (seq 0 (window_count p chunk_size overlap)).

(** The world after a list of further events. *)
Definition logs (evs : list event) (w : world) : world :=
  mk_world (ingestor_model w) (retriever_model w) (generator_client w)
           (next_obj w) (uuid_calls w) (create_calls w) (llm_calls w)
           (trace w ++ evs).

(** The batches handed to [index.upsert] in a trace, in order. *)
Definition upserts (tr : list event) : list (list vector_record) :=
  omap (fun ev => match ev with EvUpsert b => Some b | _ => None end) tr.

(** Number of batches for [n] records: [ceil(n / BATCH_SIZE)]. *)
Definition batch_count (n : nat) : nat :=
  Z.to_nat (ceil_div (Z.of_nat n) BATCH_SIZE).

(** Batch number [i] of a list of records. *)
Definition batch {A} (vectors : list A) (i : nat) : list A :=
  take (Z.to_nat BATCH_SIZE) (drop (i * Z.to_nat BATCH_SIZE) vectors).

(** The batches of a list of records, in order. *)
Definition batches_of {A} (vectors : list A) : list (list A) :=
  map (batch vectors) (seq 0 (batch_count (length vectors))).

(** Consecutive batches of at most [BATCH_SIZE] records, all full except
    possibly the last, that together are the records, each one once. *)
Definition batched {A} (vectors : list A) (batches : list (list A)) : Prop :=
  Z.of_nat (length batches) = ceil_div (Z.of_nat (length vectors)) BATCH_SIZE
  /\ concat batches = vectors
  /\ forall (i : nat) (b : list A), batches !! i = Some b ->
       Z.of_nat (length b) <= BATCH_SIZE
       /\ ((S i < length batches)%nat -> Z.of_nat (length b) = BATCH_SIZE).

(** The record prepared for chunk number [i], when [first] identifiers
    were drawn before. *)
Definition vector_of (E : env) (filename : string) (first : nat)
    (i : nat) (c : chunk) : vector_record :=
  mk_vector (uuid4 E (first + i)) (encode E (ck_text c))
    {[ "text" := PStr (ck_text c);
       "page" := PInt (ck_page c);
       "filename" := PStr filename ]}.

(** The index answers a creation request with success or with 409. *)
Definition status_accepted (status : Z) : bool :=
  (status =? 409) || negb ((400 <=? status) && (status <? 600)).

(** The world after a complete run of [ingest_pdf] on [chunks]. *)
Definition after_ingest (E : env) (pdf_path filename : string)
    (chunks : list chunk) (w : world) : world :=
  let model := default (next_obj w) (ingestor_model w) in
  let vectors := imap (vector_of E filename (uuid_calls w)) chunks in
  mk_world (Some model) (retriever_model w) (generator_client w)
    (match ingestor_model w with None => S (next_obj w) | Some _ => next_obj w end)
    (uuid_calls w + length chunks) (S (create_calls w)) (llm_calls w)
    (trace w ++
     [EvOpenPdf pdf_path] ++
     match ingestor_model w with None => [EvLoadModel (next_obj w)] | Some _ => [] end ++
     [EvEncode model (map ck_text chunks); EvCreateIndex; EvGetIndex] ++
     map EvUpsert (batches_of vectors)).

(** A small environment for examples: one document, one credential, a
    scripted language model, a fixed query answer; the index accepts every
    creation request. *)
Definition demo_env (doc : list string) (key : option string)
    (llm : nat -> string -> llm_outcome) (hits : list (gmap string pyval)) : env :=
  mk_env (fun _ => doc) (fun _ => []) (fun n => str_of_int (Z.of_nat n))
         (fun _ => 200) (fun _ _ => hits) key llm
         (fun _ => "0.0") (fun _ => "{}").

(** A response item whose ["meta"], when present, is a dict. *)
Definition meta_is_dict (item : gmap string pyval) : bool :=
  match item !! "meta" with
  | None | Some (PDict _) => true
  | Some _ => false
  end.

(** The metadata of a response item; empty when the item has none. *)
Definition meta_of (item : gmap string pyval) : gmap string pyval :=
  match item !! "meta" with
  | Some (PDict meta) => meta
  | _ => ∅
  end.

(** The retrieved result for one response item, field by field. *)
Definition result_of (item : gmap string pyval) : gmap string pyval :=
  {[ "text" := default (PStr "") (meta_of item !! "text");
     "page" := default (PInt 0) (meta_of item !! "page");
     "filename" := default (PStr "") (meta_of item !! "filename");
     "score" := default (PFloat 0%float) (item !! "similarity") ]}.

(** The world after [retrieve]: the retriever's handle is set, and the
    question was encoded and the index queried. *)
Definition after_retrieve (E : env) (question : string) (top_k : Z) (w : world) : world :=
  let model := default (next_obj w) (retriever_model w) in
  mk_world (ingestor_model w) (Some model) (generator_client w)
    (match retriever_model w with None => S (next_obj w) | Some _ => next_obj w end)
    (uuid_calls w) (create_calls w) (llm_calls w)
    (trace w ++
     match retriever_model w with None => [EvLoadModel (next_obj w)] | Some _ => [] end ++
     [EvEncode model [question]; EvGetIndex; EvQuery (encode E question) top_k]).

(** A query response with a complete item, an item whose metadata lacks
    every field, and an item with nothing at all. *)
Definition demo_hits : list (gmap string pyval) :=
  [ {[ "similarity" := PFloat 1%float;
       "meta" := PDict {[ "text" := PStr "alpha"; "page" := PInt 3;
                          "filename" := PStr "a.pdf" ]} ]};
    {[ "meta" := PDict ∅ ]};
    ∅ ].


(** The world after [k] more calls of the language model and the events
    [evs]. *)
Definition after_attempts (k : nat) (evs : list event) (w : world) : world :=
  mk_world (ingestor_model w) (retriever_model w) (generator_client w)
           (next_obj w) (uuid_calls w) (create_calls w) (llm_calls w + k)
           (trace w ++ evs).

(** What [generate_answer] makes of the outcome of its last call. *)
Definition result_of_outcome (o : llm_outcome) : result (option string) :=
  match o with
  | LlmResponse text => Ok text
  | LlmRaises e => Raise (APIError e)
  end.

(** The rate-limit signal of the backend: an API error with status 429. *)
Definition rate_limit_signal (e : backend_error) : Prop := err_code e = Some 429.

(** The text 429 occurs somewhere in a string. *)
Definition mentions_429 (s : string) : Prop :=
  exists pre post : string, s = pre +:+ "429" +:+ post.

(** The error of a rate-limited call. *)
Definition rate_limit_error : backend_error :=
  mk_error (Some 429) "429 RESOURCE_EXHAUSTED".

(** A time-out that is no rate limit but has 429 among the digits of its
    request number. *)
Definition timeout_error : backend_error :=
  mk_error None "request 14290 timed out".

(** A backend that signals a rate limit at its first two calls and
    answers at the third. *)
Definition llm_twice_limited (n : nat) (prompt : string) : llm_outcome :=
  if (n <? 2)%nat then LlmRaises rate_limit_error else LlmResponse (Some "forty-two").

(** A backend whose first call times out and whose later calls answer. *)
Definition llm_timeout_then_answer (n : nat) (prompt : string) : llm_outcome :=
  if (n <? 1)%nat then LlmRaises timeout_error else LlmResponse (Some "forty-two").

(** A rate limit (status 429) reported in words only. *)
Definition quota_error : backend_error :=
  mk_error (Some 429) "Resource has been exhausted (e.g. check quota).".

(** A backend that is rate-limited at every call and says so in words. *)
Definition llm_quota_exhausted (n : nat) (prompt : string) : llm_outcome :=
  LlmRaises quota_error.

(** A fresh process in which the client has just been created. *)
Definition with_client (api_key : string) : world :=
  mk_world None None (Some 0%nat) 1 0 0 0 [EvNewClient 0 api_key].

(** The clients constructed in a trace, and the clients through which the
    language model was called. *)
Definition clients_created (tr : list event) : list nat :=
  omap (fun ev => match ev with EvNewClient obj _ => Some obj | _ => None end) tr.

Definition clients_used (tr : list event) : list nat :=
  omap (fun ev => match ev with EvGenerate c _ => Some c | _ => None end) tr.

(** What a world shows of the generator module. *)
Definition generator_view (w : world) : option nat * list nat * list nat :=
  (generator_client w, clients_created (trace w), clients_used (trace w)).

(** A computation that leaves the generator module alone. *)
Definition quiet {A} (m : M A) : Prop :=
  forall w, generator_view (snd (m w)) = generator_view w.

(** The worlds a process can be in: it starts fresh and then runs the
    public operations, in any order and on any arguments, with one
    environment (the credential does not change while it runs). *)
Inductive reachable (E : env) : world -> Prop :=
  | reach_fresh : reachable E fresh
  | reach_ingest w fuel pdf_path filename :
      reachable E w ->
      reachable E (snd (ingest_pdf E fuel pdf_path filename w))
  | reach_retrieve w question top_k :
      reachable E w ->
      reachable E (snd (Retriever.retrieve E question top_k w))
  | reach_generate w question chunks :
      reachable E w ->
      reachable E (snd (Generator.generate_answer E question chunks w))
  | reach_ask w question :
      reachable E w ->
      reachable E (snd (Pipeline.ask E question w)).

(** The handle and the trace agree: no handle and no client yet, or one
    client, made with an accepted key, that made every call. *)
Definition client_inv (E : env) (w : world) : Prop :=
  match generator_client w with
  | None => clients_created (trace w) = [] /\ clients_used (trace w) = []
  | Some c =>
      Generator.key_rejected (GEMINI_API_KEY E) = false
      /\ clients_created (trace w) = [c]
      /\ Forall (eq c) (clients_used (trace w))
  end.

(** The embedding models constructed in a trace. *)
Definition models_loaded (tr : list event) : list nat :=
  omap (fun ev => match ev with EvLoadModel obj => Some obj | _ => None end) tr.

(** *** The prompt as the format is described

    A second description of the prompt, written from the words of the
    format and with none of the functions of [generator.py] above. *)

Definition newline : string := String "010"%char EmptyString.

(** The decimal numeral of an integer. *)
Definition decimal (z : Z) : string := NilEmpty.string_of_int (Z.to_int z).

(** What the prompt shows for the value under a key: the value as [str]
    writes it, or [missing] when the chunk lacks the key. *)
Definition shown (E : env) (missing : string) (value : option pyval) : string :=
  match value with
  | None => missing
  | Some PNone => "None"
  | Some (PStr s) => s
  | Some (PInt z) => decimal z
  | Some (PFloat f) => float_str E f
  | Some (PDict d) => dict_str E d
  end.

(** The block of chunk number [i]: a header line with the number, the
    page and the file name, then the text. *)
Definition spec_block (E : env) (i : nat) (chunk : gmap string pyval) : string :=
  "[Chunk " +:+ decimal (Z.of_nat i) +:+
  " | Page " +:+ shown E "?" (chunk !! "page") +:+
  " | File: " +:+ shown E "?" (chunk !! "filename") +:+ "]" +:+ newline +:+
  shown E "" (chunk !! "text").

(** The blocks of the chunks, numbered from [i] on in input order, with a
    blank line between one block and the next. *)
Fixpoint spec_context (E : env) (i : nat) (chunks : list (gmap string pyval)) : string :=
  match chunks with
  | [] => ""
  | chunk :: rest =>
      spec_block E i chunk +:+
      match rest with
      | [] => ""
      | _ :: _ => newline +:+ newline +:+ spec_context E (S i) rest
      end
  end.

(** The whole prompt: instruction, context, question. *)
Definition spec_prompt (E : env) (question : string)
    (chunks : list (gmap string pyval)) : string :=
  "Answer the following question using ONLY the context provided below. If the answer cannot be found in the context, clearly state that the information is not available in the provided document." +:+
  newline +:+ newline +:+
  "Context:" +:+ newline +:+
  spec_context E 1 chunks +:+
  newline +:+ newline +:+
  "Question: " +:+ question +:+
  newline +:+ newline +:+
  "Answer:".

(** ** Vocabulary of the further properties *)

(** The characters of a string, as a list. *)
Definition chars (s : string) : list ascii := list_ascii_of_string s.

(** The text got back from the chunks of one page: the first chunk, then
    every later chunk without its first [overlap] characters
    ([c[overlap:]]). *)
Definition reassemble (overlap : Z) (chunks : list chunk) : string :=
  match chunks with
  | [] => ""
  | c :: rest =>
      ck_text c +:+
      fold_right String.append ""
        (map (fun c' => str_slice (ck_text c') overlap (len (ck_text c'))) rest)
  end.

(** The chunks of a list of pages with the configured window and overlap. *)
Definition default_chunks (pages : list page_info) : list chunk :=
  concat (map (fun p => page_windows p CHUNK_SIZE CHUNK_OVERLAP) pages).

(** The world in which [ingest_pdf] stops when the index refuses the
    creation request: the model is loaded, the chunks are embedded and
    their identifiers drawn, the request is sent. *)
Definition after_refusal (E : env) (pdf_path : string)
    (chunks : list chunk) (w : world) : world :=
  let model := default (next_obj w) (ingestor_model w) in
  mk_world (Some model) (retriever_model w) (generator_client w)
    (match ingestor_model w with None => S (next_obj w) | Some _ => next_obj w end)
    (uuid_calls w + length chunks) (S (create_calls w)) (llm_calls w)
    (trace w ++
     [EvOpenPdf pdf_path] ++
     match ingestor_model w with None => [EvLoadModel (next_obj w)] | Some _ => [] end ++
     [EvEncode model (map ck_text chunks); EvCreateIndex]).

(** The response item that the index gives back for a stored record, with
    a similarity. *)
Definition stored_item (v : vector_record) (similarity : float) : gmap string pyval :=
  {[ "id" := PStr (v_id v);
     "similarity" := PFloat similarity;
     "meta" := PDict (v_meta v) ]}.

(** A computation all of whose runs relate the world before to the world
    after by [R]. *)
Definition respects (R : world -> world -> Prop) {A} (m : M A) : Prop :=
  forall w, R w (snd (m w)).

(** The events that the operations emit on their own, outside the
    loaders of the handles, the index creation and the backend call. *)
Definition plain_event (ev : event) : Prop :=
  match ev with
  | EvLoadModel _ | EvNewClient _ _ | EvCreateIndex | EvGenerate _ _ => False
  | _ => True
  end.

(** [w'] continues [w]: the trace has only grown at its end, a handle
    that was set still holds the same object, and no counter went back. *)
Definition extends (w w' : world) : Prop :=
  trace w `prefix_of` trace w'
  /\ (forall m, ingestor_model w = Some m -> ingestor_model w' = Some m)
  /\ (forall m, retriever_model w = Some m -> retriever_model w' = Some m)
  /\ (forall c, generator_client w = Some c -> generator_client w' = Some c)
  /\ (next_obj w <= next_obj w')%nat
  /\ (uuid_calls w <= uuid_calls w')%nat
  /\ (create_calls w <= create_calls w')%nat
  /\ (llm_calls w <= llm_calls w')%nat.

(** The models loaded so far are the objects that the two model handles
    hold, each loaded once and allocated before now. *)
Definition model_inv (w : world) : Prop :=
  models_loaded (trace w)
    ≡ₚ option_list (ingestor_model w) ++ option_list (retriever_model w)
  /\ Forall (fun m => (m < next_obj w)%nat) (models_loaded (trace w))
  /\ NoDup (models_loaded (trace w)).

(* ===================================================================== *)
(** * Properties *)
(* ===================================================================== *)

(** ** The chunker *)

Example ex_chunk_10_5_2 :
  chunk_text 20 [mk_page 1 "abcdefghij"] 5 2
  = Some [mk_chunk "abcde" 1; mk_chunk "defgh" 1; mk_chunk "ghij" 1; mk_chunk "j" 1].
Proof. reflexivity. Qed.

Lemma ceil_div_bounds (a b : Z) :
  0 <= a -> 0 < b ->
  0 <= ceil_div a b /\ a <= ceil_div a b * b /\ (0 < a -> (ceil_div a b - 1) * b < a).
Proof.
  intros Ha Hb. unfold ceil_div.
  pose proof (Z.div_mod (a + b - 1) b ltac:(lia)) as Hdm.
  pose proof (Z.mod_pos_bound (a + b - 1) b Hb) as Hm.
  assert (0 <= (a + b - 1) / b) by (apply Z.div_pos; lia).
  repeat split; [lia | nia | intros; nia].
Qed.

Lemma len_nonneg (s : string) : 0 <= len s.
Proof. unfold len. lia. Qed.

Section ChunkerLoop.
Variables (p : page_info) (chunk_size overlap : Z).
Hypothesis Hstride : 0 < chunk_size - overlap.

Let L := len (pg_text p).
Let n := window_count p chunk_size overlap.

Lemma window_count_spec :
  Z.of_nat n = ceil_div L (chunk_size - overlap).
Proof.
  subst n L. unfold window_count.
  pose proof (ceil_div_bounds (len (pg_text p)) _ (len_nonneg _) Hstride). lia.
Qed.

Lemma window_start_lt (k : nat) :
  (k < n)%nat -> window_start chunk_size overlap k < L.
Proof.
  intros Hk. unfold window_start.
  pose proof window_count_spec as Hn.
  pose proof (ceil_div_bounds L _ (len_nonneg _) Hstride) as (H0 & H1 & H2).
  assert (0 < L).
  { destruct (Z.eq_dec L 0) as [E|E]; [|pose proof (len_nonneg (pg_text p)); subst L; lia].
    rewrite E in Hn. unfold ceil_div in Hn. rewrite Z.div_small in Hn by lia. lia. }
  specialize (H2 ltac:(lia)). nia.
Qed.

Lemma window_start_ge : L <= window_start chunk_size overlap n.
Proof.
  unfold window_start. rewrite window_count_spec.
  pose proof (ceil_div_bounds L _ (len_nonneg _) Hstride). lia.
Qed.

(** From window [k] on, the loop appends the remaining [m] windows and
    stops, provided it is given more than [m] iterations. *)
Lemma chunk_page_loop_windows (m : nat) :
  forall (k fuel : nat) (acc : list chunk),
    (k + m = n)%nat -> (m < fuel)%nat ->
    chunk_page_loop fuel (pg_text p) (pg_page p) chunk_size overlap
      (window_start chunk_size overlap k) acc
    = Some (acc ++ map (window_chunk p chunk_size overlap) (seq k m)).
Proof.
  induction m as [|m IH]; intros k fuel acc Hk Hfuel.
  - destruct fuel as [|fuel]; [lia|]. simpl.
    assert (k = n) by lia. subst k.
    pose proof window_start_ge as Hge. fold L.
    destruct (Z.ltb_spec (window_start chunk_size overlap n) L); [lia|].
    by rewrite app_nil_r.
  - destruct fuel as [|fuel]; [lia|]. simpl.
    pose proof (window_start_lt k ltac:(lia)) as Hlt. fold L.
    destruct (Z.ltb_spec (window_start chunk_size overlap k) L); [|lia].
    replace (window_start chunk_size overlap k + (chunk_size - overlap))
      with (window_start chunk_size overlap (S k))
      by (unfold window_start; lia).
    rewrite (IH (S k) fuel) by lia.
    by rewrite <- app_assoc.
Qed.

Lemma window_count_le_len : (Z.of_nat n <= L).
Proof.
  rewrite window_count_spec.
  pose proof (ceil_div_bounds L _ (len_nonneg _) Hstride) as (H0 & H1 & H2).
  destruct (Z.eq_dec L 0) as [E|E].
  - rewrite E. unfold ceil_div. rewrite Z.div_small by lia. lia.
  - pose proof (len_nonneg (pg_text p)). fold L in H. specialize (H2 ltac:(lia)). nia.
Qed.

Lemma chunk_page_loop_total (fuel : nat) (acc : list chunk) :
  L < Z.of_nat fuel ->
  chunk_page_loop fuel (pg_text p) (pg_page p) chunk_size overlap 0 acc
  = Some (acc ++ page_windows p chunk_size overlap).
Proof.
  intros Hfuel. pose proof window_count_le_len.
  change 0 with (window_start chunk_size overlap 0).
  apply chunk_page_loop_windows; fold n; lia.
Qed.
End ChunkerLoop.

Lemma chunk_pages_loop_total (fuel : nat) (chunk_size overlap : Z) (pages : list page_info) :
  0 < chunk_size - overlap ->
  Forall (fun p => len (pg_text p) < Z.of_nat fuel) pages ->
  forall acc,
    chunk_pages_loop fuel pages chunk_size overlap acc
    = Some (acc ++ concat (map (fun p => page_windows p chunk_size overlap) pages)).
Proof.
  intros Hs Hall. induction Hall as [|p ps Hp _ IH]; intros acc; simpl.
  - by rewrite app_nil_r.
  - rewrite chunk_page_loop_total by done. rewrite IH. by rewrite app_assoc.
Qed.

(** C1 (as stated): the chunk count of a page is
    [ceil(max(L - O, 1) / (W - O))].  It fails on a ten-character page with
    [W = 5] and [O = 2]: the loop cuts four chunks (starts 0, 3, 6, 9), the
    formula gives three. *)
Lemma chunk_count_formula_counterexample :
  chunk_text 11 [mk_page 1 "abcdefghij"] 5 2
  = Some [mk_chunk "abcde" 1; mk_chunk "defgh" 1; mk_chunk "ghij" 1; mk_chunk "j" 1]
  /\ Z.of_nat (length [mk_chunk "abcde" 1; mk_chunk "defgh" 1;
                       mk_chunk "ghij" 1; mk_chunk "j" 1])
     <> ceil_div (Z.max (len "abcdefghij" - 2) 1) (5 - 2).
Proof. split; [reflexivity | vm_compute; discriminate]. Qed.

(** C1 (amended): for window length [W] and overlap [O] with [0 <= O < W],
    [chunk_text] returns, page after page, the windows of each page; a page
    whose text has length [L > 0] contributes exactly [ceil(L / (W - O))]
    chunks, at least one, its first window starts at offset 0 and its last
    window ends at an offset [>= L]. *)
Theorem chunk_text_windows (fuel : nat) (pages : list page_info) (W O : Z) :
  0 <= O < W ->
  Forall (fun p => len (pg_text p) < Z.of_nat fuel) pages ->
  chunk_text fuel pages W O
  = Some (concat (map (fun p => page_windows p W O) pages))
  /\ forall p, p ∈ pages -> 0 < len (pg_text p) ->
       length (page_windows p W O) = window_count p W O
       /\ Z.of_nat (window_count p W O) = ceil_div (len (pg_text p)) (W - O)
       /\ (1 <= window_count p W O)%nat
       /\ window_start W O 0 = 0
       /\ len (pg_text p) <= window_end W O (window_count p W O - 1).
Proof.
  intros HO Hfuel. split.
  - unfold chunk_text. by rewrite chunk_pages_loop_total by (done || lia).
  - intros p _ HL.
    assert (Hs : 0 < W - O) by lia.
    pose proof (window_count_spec p W O Hs) as Hn.
    pose proof (ceil_div_bounds (len (pg_text p)) (W - O) ltac:(lia) Hs) as (H0 & H1 & H2).
    specialize (H2 HL).
    assert (1 <= window_count p W O)%nat by nia.
    unfold page_windows. rewrite length_map, length_seq.
    repeat split; try done.
    unfold window_end, window_start.
    replace (Z.of_nat (window_count p W O - 1)) with (Z.of_nat (window_count p W O) - 1) by lia.
    nia.
Qed.

Lemma chunk_text_windows_witness :
  chunk_text 11 [mk_page 1 "abcdefghij"; mk_page 2 "xyz"] 5 2
  = Some (concat (map (fun p => page_windows p 5 2)
                      [mk_page 1 "abcdefghij"; mk_page 2 "xyz"]))
  /\ window_count (mk_page 1 "abcdefghij") 5 2 = 4%nat.
Proof.
  split; [|reflexivity].
  apply (chunk_text_windows 11 [mk_page 1 "abcdefghij"; mk_page 2 "xyz"] 5 2).
  - lia.
  - repeat constructor.
Defined.

(** With a stride [chunk_size - overlap <= 0] the loop of a non-empty page
    starts every iteration at an offset [<= 0 < len(text)]. *)
Lemma chunk_page_loop_stuck (fuel : nat) (text : string) (page : Z)
    (chunk_size overlap : Z) :
  chunk_size <= overlap -> 0 < len text ->
  forall start acc, start <= 0 ->
    chunk_page_loop fuel text page chunk_size overlap start acc = None.
Proof.
  intros Hs HL. induction fuel as [|fuel IH]; intros start acc Hstart; simpl; [done|].
  destruct (Z.ltb_spec start (len text)); [|lia].
  apply IH. lia.
Qed.

(** C2: with [overlap >= chunk_size] and a non-empty page, [chunk_text]
    raises nothing and returns nothing: whatever the number of iterations
    allowed, the loop of the first non-empty page is still running. *)
Theorem chunk_text_nonpositive_stride_never_returns
    (fuel : nat) (pages : list page_info) (chunk_size overlap : Z) :
  chunk_size <= overlap ->
  Exists (fun p => 0 < len (pg_text p)) pages ->
  chunk_text fuel pages chunk_size overlap = None.
Proof.
  intros Hs Hex. unfold chunk_text. generalize (@nil chunk).
  induction Hex as [p ps Hp | p ps _ IH]; intros acc; simpl.
  - by rewrite chunk_page_loop_stuck.
  - destruct (chunk_page_loop _ _ _ _ _ _ _); [apply IH | done].
Qed.

Lemma chunk_text_nonpositive_stride_witness :
  chunk_text 1000 [mk_page 1 "a"] 500 500 = None.
Proof.
  apply (chunk_text_nonpositive_stride_never_returns 1000 [mk_page 1 "a"] 500 500).
  - lia.
  - constructor. vm_compute. reflexivity.
Defined.

(** ** Running the monad *)

Lemma logs_nil (w : world) : logs [] w = w.
Proof. destruct w. unfold logs. simpl. by rewrite app_nil_r. Qed.

Lemma log_logs (ev : event) (w : world) : log ev w = logs [ev] w.
Proof. reflexivity. Qed.

Lemma logs_logs (a b : list event) (w : world) : logs b (logs a w) = logs (a ++ b) w.
Proof. unfold logs. simpl. by rewrite app_assoc. Qed.

Lemma trace_logs (evs : list event) (w : world) : trace (logs evs w) = trace w ++ evs.
Proof. reflexivity. Qed.

Lemma upserts_app (a b : list event) : upserts (a ++ b) = upserts a ++ upserts b.
Proof. unfold upserts. apply omap_app. Qed.

Lemma upserts_map_EvUpsert (bs : list (list vector_record)) :
  upserts (map EvUpsert bs) = bs.
Proof. induction bs as [|b bs IH]; simpl; [done | by rewrite IH]. Qed.

(** ** The batched upsert *)

Lemma upsert_loop_run (vectors : list vector_record) (starts : list Z) :
  forall w,
    upsert_loop vectors starts w
    = (Ok tt,
       logs (map (fun start => EvUpsert (list_slice vectors start (start + BATCH_SIZE)))
                 starts) w).
Proof.
  induction starts as [|start rest IH]; intros w; simpl.
  - unfold ret. by rewrite logs_nil.
  - unfold bind, emit. rewrite IH, log_logs, logs_logs. reflexivity.
Qed.

Lemma range_len_batches (n : nat) :
  range_len 0 (Z.of_nat n) BATCH_SIZE = batch_count n.
Proof.
  unfold range_len, batch_count, ceil_div, BATCH_SIZE. simpl (0 <? 500).
  destruct (Z.ltb_spec 0 (Z.of_nat n)); simpl.
  - replace (Z.of_nat n - 0 - 1) with (Z.of_nat n - 1) by lia.
    replace (Z.of_nat n + 500 - 1) with ((Z.of_nat n - 1) + 1 * 500) by lia.
    by rewrite Z.div_add by lia.
  - replace n with O by lia. reflexivity.
Qed.

Lemma batch_count_spec (n : nat) :
  (n <= batch_count n * 500 /\ (0 < n -> (batch_count n - 1) * 500 < n))%nat.
Proof.
  unfold batch_count, BATCH_SIZE.
  pose proof (ceil_div_bounds (Z.of_nat n) 500 ltac:(lia) ltac:(lia)) as (H0 & H1 & H2).
  split; [lia|]. intros Hn. specialize (H2 ltac:(lia)). lia.
Qed.

Lemma list_slice_batch {A} (vectors : list A) (i : nat) :
  list_slice vectors (0 + Z.of_nat i * BATCH_SIZE) (0 + Z.of_nat i * BATCH_SIZE + BATCH_SIZE)
  = batch vectors i.
Proof.
  unfold list_slice, batch, adjust_index, BATCH_SIZE.
  set (n := length vectors).
  destruct (Z.ltb_spec (0 + Z.of_nat i * 500) 0); [lia|].
  destruct (Z.ltb_spec (0 + Z.of_nat i * 500 + 500) 0); [lia|].
  destruct (Nat.le_gt_cases n (i * 500)) as [Hge|Hlt].
  - rewrite !drop_ge by lia. by rewrite !take_nil.
  - replace (Z.to_nat (Z.min (0 + Z.of_nat i * 500) (Z.of_nat n))) with (i * 500)%nat by lia.
    replace (i * Z.to_nat 500)%nat with (i * 500)%nat by lia.
    destruct (Nat.le_gt_cases (i * 500 + 500) n) as [Hfull|Hpart].
    + f_equal. lia.
    + rewrite !take_ge; [done | rewrite length_drop; lia | rewrite length_drop; fold n; lia].
Qed.

Lemma batch_length {A} (vectors : list A) (i : nat) :
  length (batch vectors i) = (500 `min` (length vectors - i * 500))%nat.
Proof.
  unfold batch, BATCH_SIZE. rewrite length_take, length_drop.
  replace (Z.to_nat 500) with 500%nat by lia. lia.
Qed.

Lemma batch_succ {A} (vectors : list A) (i : nat) :
  batch vectors (S i) = batch (drop 500 vectors) i.
Proof.
  unfold batch, BATCH_SIZE. rewrite drop_drop. reflexivity.
Qed.

Lemma batch_count_drop (n : nat) :
  (0 < n)%nat -> batch_count n = S (batch_count (n - 500)).
Proof.
  intros Hn.
  pose proof (batch_count_spec n) as [H1 H2]. specialize (H2 Hn).
  pose proof (batch_count_spec (n - 500)) as [H3 H4].
  destruct (Nat.eq_dec (n - 500)%nat 0%nat) as [E|E].
  - rewrite E in *. replace (batch_count 0) with O by reflexivity. lia.
  - specialize (H4 ltac:(lia)). lia.
Qed.

Lemma batches_concat {A} (c : nat) :
  forall vectors : list A,
    c = batch_count (length vectors) ->
    concat (map (batch vectors) (seq 0 c)) = vectors.
Proof.
  induction c as [|c IH]; intros vectors Hc.
  - pose proof (batch_count_spec (length vectors)) as [H1 _].
    rewrite <- Hc in H1. destruct vectors; [done | simpl in H1; lia].
  - assert (0 < length vectors)%nat as Hpos.
    { destruct vectors; [discriminate | simpl; lia]. }
    rewrite (batch_count_drop _ Hpos) in Hc.
    rewrite <- cons_seq, <- fmap_S_seq. simpl.
    change (map (batch vectors) (S <$> seq 0 c)) with (map (batch vectors) (map S (seq 0 c))).
    rewrite map_map.
    rewrite (map_ext _ (batch (drop 500 vectors))) by (intros; apply batch_succ).
    rewrite IH by (rewrite length_drop; lia).
    unfold batch. simpl. change (Z.to_nat BATCH_SIZE) with 500%nat.
    apply take_drop.
Qed.

Lemma batches_of_batched {A} (vectors : list A) : batched vectors (batches_of vectors).
Proof.
  unfold batched, batches_of. rewrite length_map, length_seq.
  pose proof (batch_count_spec (length vectors)) as [Hle Hlt].
  split; [|split].
  - unfold batch_count.
    pose proof (ceil_div_bounds (Z.of_nat (length vectors)) BATCH_SIZE
                  ltac:(lia) ltac:(reflexivity)). lia.
  - by apply batches_concat.
  - intros i b Hb. apply list_lookup_fmap_Some in Hb as (j & -> & Hj).
    apply lookup_seq in Hj as [-> Hi]. simpl.
    rewrite batch_length. unfold BATCH_SIZE. split; [lia|].
    intros Hnext.
    assert (0 < length vectors)%nat as Hpos.
    { destruct (length vectors); [vm_compute in Hi; lia | lia]. }
    specialize (Hlt Hpos). lia.
Qed.

Lemma batches_of_1200 {A} (vectors : list A) :
  length vectors = 1200%nat ->
  map length (batches_of vectors) = [500; 500; 200]%nat.
Proof.
  intros Hn. unfold batches_of. rewrite Hn.
  replace (batch_count 1200) with 3%nat by (vm_compute; reflexivity).
  simpl. rewrite !batch_length, Hn. reflexivity.
Qed.

Lemma upsert_loop_batches (vectors : list vector_record) (w : world) :
  upsert_loop vectors (range 0 (Z.of_nat (length vectors)) BATCH_SIZE) w
  = (Ok tt, logs (map EvUpsert (batches_of vectors)) w).
Proof.
  rewrite upsert_loop_run. do 2 f_equal.
  unfold range, batches_of. rewrite range_len_batches, !map_map.
  apply map_ext. intros i. by rewrite list_slice_batch.
Qed.

(** ** [ingest_pdf], step by step *)

Lemma prepare_vectors_run (E : env) (filename : string) (rest : list chunk) :
  forall (pre : list chunk) (acc : list vector_record) (w : world),
    prepare_vectors E (map (encode E) (map ck_text (pre ++ rest))) filename
      (length pre) rest acc w
    = (Ok (acc ++ imap (vector_of E filename (uuid_calls w)) rest),
       mk_world (ingestor_model w) (retriever_model w) (generator_client w)
                (next_obj w) (uuid_calls w + length rest) (create_calls w)
                (llm_calls w) (trace w)).
Proof.
  induction rest as [|c rest IH]; intros pre acc w; simpl.
  - unfold ret. rewrite app_nil_r, Nat.add_0_r. by destruct w.
  - unfold bind, new_uuid.
    assert (map (encode E) (map ck_text (pre ++ c :: rest)) !! length pre
            = Some (encode E (ck_text c))) as ->.
    { rewrite !list_lookup_fmap, lookup_app_r by lia.
      by rewrite Nat.sub_diag. }
    replace (pre ++ c :: rest) with ((pre ++ [c]) ++ rest) by (by rewrite <- app_assoc).
    replace (S (length pre)) with (length (pre ++ [c])) by (rewrite length_app; simpl; lia).
    rewrite IH. simpl. f_equal.
    + f_equal. rewrite <- app_assoc. simpl. do 2 f_equal.
      * unfold vector_of. by rewrite Nat.add_0_r.
      * apply imap_ext. intros j x _. unfold vector_of. simpl.
        by rewrite Nat.add_succ_r.
    + f_equal. lia.
Qed.

Lemma ingest_pdf_run (E : env) (fuel : nat) (pdf_path filename : string)
    (w : world) (pages : list page_info) (chunks : list chunk) :
  extract_pages_loop (pdf_pages E pdf_path) 0 [] = pages -> pages <> [] ->
  chunk_text fuel pages CHUNK_SIZE CHUNK_OVERLAP = Some chunks -> chunks <> [] ->
  if status_accepted (create_index_status E (create_calls w))
  then ingest_pdf E fuel pdf_path filename w
       = (Ok (Z.of_nat (length chunks)), after_ingest E pdf_path filename chunks w)
  else exists w',
       ingest_pdf E fuel pdf_path filename w
       = (Raise (HTTPError (create_index_status E (create_calls w))), w')
       /\ upserts (trace w') = upserts (trace w).
Proof.
  intros Hpages Hne Hchunks Hcne.
  destruct pages as [|p0 pages]; [done|].
  destruct chunks as [|c0 chunks]; [done|].
  remember (c0 :: chunks) as cs eqn:Hcs.
  pose proof (prepare_vectors_run E filename cs [] []) as Hprep.
  simpl (length []) in Hprep. simpl ([] ++ _) in Hprep.
  assert (forall w0,
    ingest_pdf E fuel pdf_path filename w0
    = (let! model := _get_model in
       let! embeddings := model_encode E model (map ck_text cs) in
       let! vectors := prepare_vectors E embeddings filename 0 cs [] in
       _ensure_index E ;;
       emit EvGetIndex ;;
       upsert_loop vectors (range 0 (Z.of_nat (length vectors)) BATCH_SIZE) ;;
       ret (Z.of_nat (length vectors))) (log (EvOpenPdf pdf_path) w0)) as ->.
  { intros w0. unfold ingest_pdf, extract_text_from_pdf, bind at 1 2, emit, ret.
    rewrite Hpages, Hchunks, Hcs. reflexivity. }
  unfold status_accepted, after_ingest.
  destruct w as [im rm gc no uc cc lc tr]. destruct im as [m|].
  all: simpl (create_calls _).
  all: destruct (create_index_status E cc =? 409) eqn:E409;
    [|destruct ((400 <=? create_index_status E cc) && (create_index_status E cc <? 600)) eqn:Erange];
    simpl orb; simpl negb; cbv iota; [| eexists; split |].
  all: try (unfold bind, _get_model, model_encode, _ensure_index, emit, ret;
    simpl; unfold bind, new_object, emit, set_model, ret, log; simpl;
    rewrite Hprep; simpl; rewrite E409, ?Erange; simpl;
    rewrite ?upsert_loop_batches; unfold logs; simpl;
    rewrite ?length_imap; rewrite <- ?app_assoc; simpl; reflexivity).
  all: simpl; rewrite !upserts_app; simpl; by rewrite !app_nil_r.
Qed.

Lemma ingest_pdf_stops_early (E : env) (fuel : nat) (pdf_path filename : string) (w : world) :
  extract_pages_loop (pdf_pages E pdf_path) 0 [] = []
  \/ chunk_text fuel (extract_pages_loop (pdf_pages E pdf_path) 0 [])
       CHUNK_SIZE CHUNK_OVERLAP = Some [] ->
  ingest_pdf E fuel pdf_path filename w = (Ok 0, log (EvOpenPdf pdf_path) w).
Proof.
  intros H. unfold ingest_pdf, extract_text_from_pdf, bind at 1 2, emit, ret.
  destruct (extract_pages_loop (pdf_pages E pdf_path) 0 []) as [|p0 pages] eqn:Hpages;
    [reflexivity|].
  destruct H as [H|H]; [discriminate|]. by rewrite H.
Qed.

(** C6: if extraction yields no page, or chunking yields no chunk,
    [ingest_pdf] returns 0 and the only thing it has done is to open the
    PDF: the model handle is untouched and the trace has no model load, no
    encoding, no index creation and no upsert. *)
Theorem ingest_pdf_nothing_to_store
    (E : env) (fuel : nat) (pdf_path filename : string) (w : world) :
  extract_pages_loop (pdf_pages E pdf_path) 0 [] = []
  \/ chunk_text fuel (extract_pages_loop (pdf_pages E pdf_path) 0 [])
       CHUNK_SIZE CHUNK_OVERLAP = Some [] ->
  exists w',
    ingest_pdf E fuel pdf_path filename w = (Ok 0, w')
    /\ trace w' = trace w ++ [EvOpenPdf pdf_path]
    /\ ingestor_model w' = ingestor_model w
    /\ next_obj w' = next_obj w
    /\ uuid_calls w' = uuid_calls w
    /\ create_calls w' = create_calls w.
Proof.
  intros H. exists (log (EvOpenPdf pdf_path) w).
  split; [by apply ingest_pdf_stops_early | done].
Qed.

Lemma ingest_pdf_nothing_to_store_witness :
  exists w',
    ingest_pdf (demo_env ["   "] None (fun _ _ => LlmResponse (Some "")) []) 0 "blank.pdf" "blank.pdf" fresh
    = (Ok 0, w')
    /\ trace w' = [EvOpenPdf "blank.pdf"].
Proof.
  destruct (ingest_pdf_nothing_to_store
              (demo_env ["   "] None (fun _ _ => LlmResponse (Some "")) []) 0
              "blank.pdf" "blank.pdf" fresh) as (w' & Hrun & Htr & _).
  - left. reflexivity.
  - exists w'. split; [exact Hrun | exact Htr].
Defined.

(** C5: the loop over [range(0, len(vectors), BATCH_SIZE)] hands every
    list of records to the index in [ceil(n / 500)] consecutive batches of
    at most 500 records, all full except possibly the last, that together
    are the records, each one once; 1200 records go in three calls of 500,
    500 and 200.  The upserts of a run of [ingest_pdf] that returns [r] are
    such batches of the [r] records it prepared. *)
Theorem ingest_pdf_upserts_in_batches :
  (forall (vectors : list vector_record) (w : world),
     exists batches,
       upsert_loop vectors (range 0 (Z.of_nat (length vectors)) BATCH_SIZE) w
       = (Ok tt, logs (map EvUpsert batches) w)
       /\ batched vectors batches
       /\ (length vectors = 1200%nat -> map length batches = [500; 500; 200]%nat))
  /\ (forall (E : env) (fuel : nat) (pdf_path filename : string) (w w' : world) (r : Z),
        ingest_pdf E fuel pdf_path filename w = (Ok r, w') ->
        exists (vectors : list vector_record) (batches : list (list vector_record)),
          r = Z.of_nat (length vectors)
          /\ upserts (trace w') = upserts (trace w) ++ batches
          /\ batched vectors batches).
Proof.
  split.
  - intros vectors w. exists (batches_of vectors).
    split; [apply upsert_loop_batches|].
    split; [apply batches_of_batched | apply batches_of_1200].
  - intros E fuel pdf_path filename w w' r Hrun.
    destruct (extract_pages_loop (pdf_pages E pdf_path) 0 []) as [|p0 pages] eqn:Hpages.
    { rewrite ingest_pdf_stops_early in Hrun by (by left).
      injection Hrun as <- <-. exists [], []. simpl.
      rewrite upserts_app, app_nil_r. simpl.
      repeat split; try done. by rewrite app_nil_r. }
    destruct (chunk_text fuel (p0 :: pages) CHUNK_SIZE CHUNK_OVERLAP) as [[|c0 chunks]|] eqn:Hchunks.
    + rewrite ingest_pdf_stops_early in Hrun by (right; by rewrite Hpages).
      injection Hrun as <- <-. exists [], []. simpl.
      rewrite upserts_app, app_nil_r. simpl.
      repeat split; try done. by rewrite app_nil_r.
    + pose proof (ingest_pdf_run E fuel pdf_path filename w _ _ Hpages
                    ltac:(done) Hchunks ltac:(done)) as Hstep.
      destruct (status_accepted _).
      * rewrite Hstep in Hrun. injection Hrun as <- <-.
        eexists (imap (vector_of E filename (uuid_calls w)) (c0 :: chunks)), _.
        split; [by rewrite length_imap|].
        split; [|apply batches_of_batched].
        unfold after_ingest. cbn [trace]. rewrite !upserts_app.
        rewrite upserts_map_EvUpsert.
        destruct (ingestor_model w); simpl; reflexivity.
      * destruct Hstep as (w'' & Hstep & _). rewrite Hstep in Hrun. discriminate.
    + unfold ingest_pdf, extract_text_from_pdf, bind at 1 2, emit, ret in Hrun.
      rewrite Hpages, Hchunks in Hrun. discriminate.
Qed.

Lemma ingest_pdf_upserts_in_batches_witness :
  exists (vectors : list vector_record) (batches : list (list vector_record)),
    1 = Z.of_nat (length vectors)
    /\ upserts (trace (snd (ingest_pdf (demo_env ["hello world"] None (fun _ _ => LlmResponse (Some "")) [])
                                       20 "a.pdf" "a.pdf" fresh)))
       = upserts (trace fresh) ++ batches
    /\ batched vectors batches.
Proof.
  apply (proj2 ingest_pdf_upserts_in_batches
           (demo_env ["hello world"] None (fun _ _ => LlmResponse (Some "")) [])
           20%nat "a.pdf" "a.pdf" fresh).
  vm_compute. reflexivity.
Defined.

(** ** The retriever *)

Lemma format_results_run (results : list (gmap string pyval)) :
  Forall (fun item => meta_is_dict item = true) results ->
  forall (chunks : list (gmap string pyval)) (w : world),
    Retriever.format_results results chunks w
    = (Ok (chunks ++ map result_of results), w).
Proof.
  induction 1 as [|item rest Hitem _ IH]; intros chunks w; simpl.
  - unfold ret. by rewrite app_nil_r.
  - unfold bind, Retriever.item_meta, Retriever.dict_get.
    unfold meta_is_dict in Hitem.
    assert (Hmeta : match default (PDict ∅) (item !! "meta") with
                    | PDict meta => ret meta
                    | _ => raise AttributeError
                    end w = (Ok (meta_of item), w)).
    { unfold meta_of. destruct (item !! "meta") as [[]|]; simpl; done. }
    rewrite Hmeta, IH. by rewrite <- app_assoc.
Qed.

Lemma retrieve_run (E : env) (question : string) (top_k : Z) (w : world) :
  Retriever.retrieve E question top_k w
  = Retriever.format_results (index_query E (encode E question) top_k) []
      (after_retrieve E question top_k w).
Proof.
  unfold Retriever.retrieve, Retriever._get_model, after_retrieve.
  destruct w as [im rm gc no uc cc lc tr]. destruct rm as [m|]; simpl.
  - unfold bind, emit, ret, log. simpl. by rewrite <- !app_assoc.
  - unfold bind, new_object, emit, Retriever.set_model, ret, log. simpl.
    by rewrite <- !app_assoc.
Qed.

(** C9 (as stated): for every query response [retrieve] returns one result
    per item and raises nothing.  It fails on a response whose only item
    carries [None] under ["meta"]: [item.get("meta", {})] gives [None], not
    the default, and [meta.get] raises [AttributeError], so no result is
    returned for the item. *)
Lemma retrieve_raises_on_null_meta :
  index_query
    (demo_env [] None (fun _ _ => LlmResponse (Some ""))
       [ {[ "similarity" := PFloat 1%float; "meta" := PNone ]} ])
    (encode (demo_env [] None (fun _ _ => LlmResponse (Some ""))
               [ {[ "similarity" := PFloat 1%float; "meta" := PNone ]} ])
            "what is alpha?")
    Retriever.TOP_K
  = [ {[ "similarity" := PFloat 1%float; "meta" := PNone ]} ]
  /\ fst (Retriever.retrieve
            (demo_env [] None (fun _ _ => LlmResponse (Some ""))
               [ {[ "similarity" := PFloat 1%float; "meta" := PNone ]} ])
            "what is alpha?" Retriever.TOP_K fresh)
     = Raise AttributeError
  /\ ~ exists results : list (gmap string pyval),
         fst (Retriever.retrieve
                (demo_env [] None (fun _ _ => LlmResponse (Some ""))
                   [ {[ "similarity" := PFloat 1%float; "meta" := PNone ]} ])
                "what is alpha?" Retriever.TOP_K fresh)
         = Ok results.
Proof.
  assert (Hrun : fst (Retriever.retrieve
            (demo_env [] None (fun _ _ => LlmResponse (Some ""))
               [ {[ "similarity" := PFloat 1%float; "meta" := PNone ]} ])
            "what is alpha?" Retriever.TOP_K fresh)
     = Raise AttributeError).
  { rewrite retrieve_run. reflexivity. }
  split; [reflexivity | split; [exact Hrun|]].
  intros [results Hres]. rewrite Hrun in Hres. discriminate.
Qed.

(** C9 (amended): when every item of the query response has a dict (or
    nothing) as its ["meta"], [retrieve] raises nothing and returns one
    result per item, in the order of the response; a result carries the
    empty string for a missing text or filename, 0 for a missing page and
    0.0 for a missing similarity. *)
Theorem retrieve_defaults_missing_fields
    (E : env) (question : string) (top_k : Z) (w : world) :
  Forall (fun item => meta_is_dict item = true)
         (index_query E (encode E question) top_k) ->
  Retriever.retrieve E question top_k w
  = (Ok (map result_of (index_query E (encode E question) top_k)),
     after_retrieve E question top_k w)
  /\ forall item : gmap string pyval,
       (meta_of item !! "text" = None -> result_of item !! "text" = Some (PStr ""))
       /\ (meta_of item !! "filename" = None -> result_of item !! "filename" = Some (PStr ""))
       /\ (meta_of item !! "page" = None -> result_of item !! "page" = Some (PInt 0))
       /\ (item !! "similarity" = None -> result_of item !! "score" = Some (PFloat 0%float))
       /\ (forall v, meta_of item !! "text" = Some v -> result_of item !! "text" = Some v)
       /\ (forall v, meta_of item !! "filename" = Some v -> result_of item !! "filename" = Some v)
       /\ (forall v, meta_of item !! "page" = Some v -> result_of item !! "page" = Some v)
       /\ (forall v, item !! "similarity" = Some v -> result_of item !! "score" = Some v).
Proof.
  intros Hwf. split.
  - rewrite retrieve_run. by rewrite format_results_run.
  - intros item. unfold result_of.
    repeat split; intros; simplify_map_eq; done.
Qed.

Lemma retrieve_defaults_missing_fields_witness :
  Retriever.retrieve (demo_env [] None (fun _ _ => LlmResponse (Some "")) demo_hits)
    "what is alpha?" Retriever.TOP_K fresh
  = (Ok [ {[ "text" := PStr "alpha"; "page" := PInt 3;
             "filename" := PStr "a.pdf"; "score" := PFloat 1%float ]};
          {[ "text" := PStr ""; "page" := PInt 0;
             "filename" := PStr ""; "score" := PFloat 0%float ]};
          {[ "text" := PStr ""; "page" := PInt 0;
             "filename" := PStr ""; "score" := PFloat 0%float ]} ],
     after_retrieve (demo_env [] None (fun _ _ => LlmResponse (Some "")) demo_hits)
       "what is alpha?" Retriever.TOP_K fresh).
Proof.
  refine (proj1 (retrieve_defaults_missing_fields
                   (demo_env [] None (fun _ _ => LlmResponse (Some "")) demo_hits)
                   "what is alpha?" Retriever.TOP_K fresh _)).
  repeat constructor.
Defined.

(** ** The prompt builder *)

Lemma context_parts_loop_spec (E : env) (chunks : list (gmap string pyval)) :
  forall (i : Z) (context_parts : list string),
    Generator.context_parts_loop E i chunks context_parts
    = context_parts
      ++ imap (fun j chunk => Generator.context_part E (i + Z.of_nat j) chunk) chunks.
Proof.
  induction chunks as [|chunk rest IH]; intros i acc; simpl.
  - by rewrite app_nil_r.
  - rewrite IH, <- app_assoc. simpl. rewrite Z.add_0_r. do 2 f_equal.
    apply imap_ext. intros j c _. simpl. f_equal. lia.
Qed.

Lemma append_empty_r (s : string) : s +:+ "" = s.
Proof.
  induction s as [|c s IH]; [done|].
  change (String c (s +:+ "") = String c s). by rewrite IH.
Qed.

Lemma append_assoc (s t u : string) : (s +:+ t) +:+ u = s +:+ t +:+ u.
Proof.
  induction s as [|c s IH]; [done|].
  change (String c ((s +:+ t) +:+ u) = String c (s +:+ t +:+ u)). by rewrite IH.
Qed.

Lemma context_part_block (E : env) (i : nat) (chunk : gmap string pyval) :
  Generator.context_part E (Z.of_nat i) chunk = spec_block E i chunk.
Proof.
  unfold Generator.context_part, spec_block, Retriever.dict_get, shown, decimal.
  destruct (chunk !! "page") as [[]|], (chunk !! "filename") as [[]|],
    (chunk !! "text") as [[]|]; reflexivity.
Qed.

Lemma join_context (E : env) (chunks : list (gmap string pyval)) :
  forall i : nat,
    join (Generator.nl +:+ Generator.nl)
      (imap (fun j chunk => Generator.context_part E (Z.of_nat i + Z.of_nat j) chunk) chunks)
    = spec_context E i chunks.
Proof.
  induction chunks as [|chunk rest IH]; intros i; [reflexivity|].
  rewrite imap_cons. cbn [spec_context].
  rewrite Z.add_0_r, context_part_block.
  rewrite (imap_ext _ (fun j c => Generator.context_part E (Z.of_nat (S i) + Z.of_nat j) c))
    by (intros j c _; simpl; f_equal; lia).
  specialize (IH (S i)).
  destruct rest as [|chunk' rest].
  - simpl. by rewrite append_empty_r.
  - rewrite <- IH. reflexivity.
Qed.

Lemma spec_context_block (E : env) (chunks : list (gmap string pyval)) :
  forall (k i : nat) (chunk : gmap string pyval),
    chunks !! i = Some chunk ->
    exists before after,
      spec_context E k chunks = before +:+ spec_block E (k + i) chunk +:+ after.
Proof.
  induction chunks as [|c rest IH]; intros k i chunk Hi; [done|].
  destruct i as [|i]; simpl in Hi.
  - injection Hi as ->. exists "". eexists. rewrite Nat.add_0_r. reflexivity.
  - destruct (IH (S k) i chunk Hi) as (before & after & Hrest).
    destruct rest as [|c' rest]; [done|].
    exists (spec_block E k c +:+ newline +:+ newline +:+ before), after.
    cbn [spec_context] in *. rewrite Hrest.
    replace (k + S i)%nat with (S k + i)%nat by lia.
    by rewrite !append_assoc.
Qed.

(** C7: the prompt is the instruction to answer only from the context and
    to say so when the answer is not in it, a blank line, [Context:] and
    the context block, a blank line, [Question: ] and the question, a
    blank line and [Answer:].  The context block has one block per chunk,
    numbered from 1 in input order and separated by a blank line; a block
    is the header line [[Chunk i | Page p | File: f]] followed by the text
    of the chunk, where a missing page or file name shows as [?] and a
    missing text as nothing.  So the block of every chunk stands in the
    context block, which stands before the question. *)
Theorem build_prompt_shape (E : env) (question : string)
    (chunks : list (gmap string pyval)) :
  Generator._build_prompt E question chunks = spec_prompt E question chunks
  /\ (forall (i : nat) (chunk : gmap string pyval),
        chunks !! i = Some chunk ->
        exists before after,
          spec_context E 1 chunks = before +:+ spec_block E (S i) chunk +:+ after)
  /\ Generator._build_prompt E "What is alpha?"
       [ {[ "text" := PStr "alpha"; "page" := PInt 3; "filename" := PStr "a.pdf" ]};
         {[ "text" := PStr "beta"; "page" := PInt 12 ]};
         {[ "filename" := PStr "c.pdf" ]} ]
     = "Answer the following question using ONLY the context provided below. If the answer cannot be found in the context, clearly state that the information is not available in the provided document.

Context:
[Chunk 1 | Page 3 | File: a.pdf]
alpha

[Chunk 2 | Page 12 | File: ?]
beta

[Chunk 3 | Page ? | File: c.pdf]


Question: What is alpha?

Answer:".
Proof.
  split; [|split].
  - unfold Generator._build_prompt, spec_prompt.
    rewrite context_parts_loop_spec. simpl ([] ++ _).
    change 1 with (Z.of_nat 1). by rewrite join_context.
  - intros i chunk Hi. apply (spec_context_block E chunks 1 i chunk Hi).
  - vm_compute. reflexivity.
Qed.

Example ex_build_prompt :
  Generator._build_prompt (demo_env [] None (fun _ _ => LlmResponse (Some "")) [])
    "What is alpha?"
    [ {[ "text" := PStr "alpha"; "page" := PInt 3; "filename" := PStr "a.pdf" ]};
      {[ "text" := PStr "beta" ]} ]
  = "Answer the following question using ONLY the context provided below. If the answer cannot be found in the context, clearly state that the information is not available in the provided document.

Context:
[Chunk 1 | Page 3 | File: a.pdf]
alpha

[Chunk 2 | Page ? | File: ?]
beta

Question: What is alpha?

Answer:".
Proof. vm_compute. reflexivity. Qed.

(** ** The answer generator *)

Lemma get_client_existing (E : env) (w : world) (c : nat) :
  generator_client w = Some c -> Generator._get_client E w = (Ok c, w).
Proof. intros H. unfold Generator._get_client. by rewrite H. Qed.

Lemma get_client_rejected (E : env) (w : world) :
  generator_client w = None ->
  Generator.key_rejected (GEMINI_API_KEY E) = true ->
  Generator._get_client E w = (Raise Generator.key_error, w).
Proof. intros H1 H2. unfold Generator._get_client. by rewrite H1, H2. Qed.

Lemma get_client_created (E : env) (w : world) :
  generator_client w = None ->
  Generator.key_rejected (GEMINI_API_KEY E) = false ->
  Generator._get_client E w
  = (Ok (next_obj w),
     mk_world (ingestor_model w) (retriever_model w) (Some (next_obj w))
              (S (next_obj w)) (uuid_calls w) (create_calls w) (llm_calls w)
              (trace w ++ [EvNewClient (next_obj w) (default "" (GEMINI_API_KEY E))])).
Proof. intros H1 H2. unfold Generator._get_client. by rewrite H1, H2. Qed.

Lemma generate_answer_with_client (E : env) (question : string)
    (chunks : list (gmap string pyval)) (w w0 : world) (c : nat) :
  Generator._get_client E w = (Ok c, w0) ->
  Generator.generate_answer E question chunks w
  = Generator.retry_loop E c (Generator._build_prompt E question chunks) 3 [0; 1; 2]
      (log EvBuildPrompt w0).
Proof.
  intros H. unfold Generator.generate_answer, bind at 1 2. rewrite H.
  reflexivity.
Qed.

Lemma generate_answer_without_client (E : env) (question : string)
    (chunks : list (gmap string pyval)) (w w0 : world) (e : exn) :
  Generator._get_client E w = (Raise e, w0) ->
  Generator.generate_answer E question chunks w = (Raise e, w0).
Proof.
  intros H. unfold Generator.generate_answer, bind at 1. by rewrite H.
Qed.

Lemma prefix_spec (a b : string) :
  String.prefix a b = true <-> exists post, b = a +:+ post.
Proof.
  revert b. induction a as [|x a IH]; intros b; simpl.
  - destruct b; split; eauto.
  - destruct b as [|y b]; simpl.
    + split; [discriminate | by intros (post & ?)].
    + destruct (ascii_dec x y) as [->|Hne].
      * rewrite IH. split; intros (post & Hb); exists post; [by rewrite Hb | by injection Hb].
      * split; [discriminate | intros (post & Hb); by injection Hb].
Qed.

(** [needle in hay] holds exactly when [hay] is some text, then [needle],
    then some text. *)
Lemma str_contains_spec (needle hay : string) :
  str_contains needle hay = true
  <-> exists pre post, hay = pre +:+ needle +:+ post.
Proof.
  induction hay as [|c hay IH].
  - cbn [str_contains]. rewrite orb_false_r, prefix_spec. split.
    + intros (post & Hp). by exists "", post.
    + intros ([|x pre] & post & Hp); [by exists post | discriminate].
  - cbn [str_contains]. rewrite orb_true_iff, prefix_spec, IH. split.
    + intros [(post & Hp)|(pre & post & Hp)].
      * by exists "", post.
      * exists (String c pre), post. simpl. by rewrite Hp.
    + intros ([|x pre] & post & Hp).
      * left. by exists post.
      * right. simpl in Hp. injection Hp as -> Hp. by exists pre, post.
Qed.

Lemma mentions_429_true (s : string) : mentions_429 s -> str_contains "429" s = true.
Proof. intros H. by apply str_contains_spec. Qed.

Lemma mentions_429_false (s : string) : ~ mentions_429 s -> str_contains "429" s = false.
Proof.
  intros H. apply not_true_is_false. intros Hc. by apply H, str_contains_spec.
Qed.

Ltac run_retry Hclient :=
  rewrite (generate_answer_with_client _ _ _ _ _ _ Hclient);
  rewrite ?Nat.add_succ_r, ?Nat.add_0_r in *;
  repeat match goal with
         | H : mentions_429 _ |- _ => apply mentions_429_true in H
         | H : ~ mentions_429 _ |- _ => apply mentions_429_false in H
         end;
  cbn [Generator.retry_loop];
  unfold bind, Generator.call_generate_content, emit, ret, raise;
  repeat match goal with
         | H : generate_content _ _ _ = _ |- _ => rewrite H
         | H : str_contains _ _ = _ |- _ => rewrite H
         | _ => progress simpl
         | _ => progress change (2 <? 3 - 1) with false
         | _ => rewrite andb_false_r
         end;
  unfold after_attempts, log; simpl;
  rewrite <- ?app_assoc; simpl;
  rewrite ?Nat.add_succ_r, ?Nat.add_0_r; try reflexivity.

(** C4: [generate_answer] does not retry on the rate-limit signal of the
    backend but on the text of the error.  An exception of the first call
    that is no rate-limit signal, but whose message has 429 somewhere in
    it, is not raised: the call sleeps 20 s and calls the backend again,
    and when that second call answers, the answer is returned as if
    nothing had failed.  And a rate-limit signal whose message does not
    have 429 in it is not retried: it is raised at once, after one call
    and no sleep. *)
Theorem generate_answer_retries_on_429_in_message (E : env) (question : string)
    (chunks : list (gmap string pyval)) (w w0 : world) (c : nat) :
  Generator._get_client E w = (Ok c, w0) ->
  let prompt := Generator._build_prompt E question chunks in
  let backend := fun i : nat => generate_content E (llm_calls w0 + i) prompt in
  let call := EvGenerate c prompt in
  let run := Generator.generate_answer E question chunks w in
  (forall e,
      backend 0%nat = LlmRaises e ->
      ~ rate_limit_signal e ->
      mentions_429 (err_str e) ->
      (exists evs,
          trace (snd run) = trace w0 ++ [EvBuildPrompt; call; EvSleep 20; call] ++ evs)
      /\ (forall text,
            backend 1%nat = LlmResponse text ->
            run = (Ok text, after_attempts 2 [EvBuildPrompt; call; EvSleep 20; call] w0)))
  /\ (forall e,
        backend 0%nat = LlmRaises e ->
        rate_limit_signal e ->
        ~ mentions_429 (err_str e) ->
        run = (Raise (APIError e), after_attempts 1 [EvBuildPrompt; call] w0)).
Proof.
  intros Hclient prompt backend call run. subst run backend call prompt.
  cbv beta. split.
  - intros e H0 _ H429. split.
    + apply mentions_429_true in H429.
      rewrite (generate_answer_with_client _ _ _ _ _ _ Hclient).
      rewrite ?Nat.add_0_r in *.
      cbn [Generator.retry_loop].
      unfold bind, Generator.call_generate_content, emit, ret, raise.
      cbn [llm_calls log]. rewrite H0, H429. simpl.
      repeat (case_match; simpl); unfold log; simpl;
        rewrite <- ?app_assoc; simpl; eexists; reflexivity.
    + intros text H1. run_retry Hclient.
  - intros e H0 _ Hno. run_retry Hclient.
Qed.

Lemma generate_answer_retries_on_429_in_message_witness :
  Generator.generate_answer (demo_env [] (Some "secret") llm_timeout_then_answer [])
    "why?" [] fresh
  = (Ok (Some "forty-two"),
     after_attempts 2
       [EvBuildPrompt;
        EvGenerate 0 (Generator._build_prompt
                        (demo_env [] (Some "secret") llm_timeout_then_answer []) "why?" []);
        EvSleep 20;
        EvGenerate 0 (Generator._build_prompt
                        (demo_env [] (Some "secret") llm_timeout_then_answer []) "why?" [])]
       (with_client "secret"))
  /\ Generator.generate_answer (demo_env [] (Some "secret") llm_quota_exhausted [])
       "why?" [] fresh
     = (Raise (APIError quota_error),
        after_attempts 1
          [EvBuildPrompt;
           EvGenerate 0 (Generator._build_prompt
                           (demo_env [] (Some "secret") llm_quota_exhausted []) "why?" [])]
          (with_client "secret")).
Proof.
  split.
  - refine (proj2 (proj1 (generate_answer_retries_on_429_in_message
                     (demo_env [] (Some "secret") llm_timeout_then_answer [])
                     "why?" [] fresh (with_client "secret") 0%nat _)
                    timeout_error _ _ _)
              (Some "forty-two") _).
    + vm_compute. reflexivity.
    + vm_compute. reflexivity.
    + unfold rate_limit_signal. simpl. discriminate.
    + exists "request 1", "0 timed out". reflexivity.
    + vm_compute. reflexivity.
  - refine (proj2 (generate_answer_retries_on_429_in_message
                     (demo_env [] (Some "secret") llm_quota_exhausted [])
                     "why?" [] fresh (with_client "secret") 0%nat _)
              quota_error _ _ _).
    + vm_compute. reflexivity.
    + vm_compute. reflexivity.
    + reflexivity.
    + intros Hm. apply mentions_429_true in Hm. vm_compute in Hm. discriminate.
Defined.

(** ** The client handle *)

Lemma quiet_ret {A} (a : A) : quiet (ret a).
Proof. by intros w. Qed.

Lemma quiet_raise {A} (e : exn) : quiet (@raise A e).
Proof. by intros w. Qed.

Lemma quiet_out_of_fuel {A} : quiet (@out_of_fuel A).
Proof. by intros w. Qed.

Lemma quiet_bind {A B} (m : M A) (k : A -> M B) :
  quiet m -> (forall a, quiet (k a)) -> quiet (bind m k).
Proof.
  intros Hm Hk w. unfold bind. specialize (Hm w).
  destruct (m w) as [[a|e|] w']; simpl in *; try done.
  by rewrite Hk.
Qed.

Lemma generator_view_log (ev : event) (w : world) :
  match ev with EvNewClient _ _ | EvGenerate _ _ => False | _ => True end ->
  generator_view (log ev w) = generator_view w.
Proof.
  intros Hev. unfold generator_view, log, clients_created, clients_used. simpl.
  rewrite !omap_app. destruct ev; simpl; try done; by rewrite !app_nil_r.
Qed.

Lemma quiet_emit (ev : event) :
  match ev with EvNewClient _ _ | EvGenerate _ _ => False | _ => True end ->
  quiet (emit ev).
Proof. intros Hev w. by apply generator_view_log. Qed.

Lemma quiet_new_object : quiet new_object.
Proof. by intros w. Qed.

Lemma quiet_ingestor_get_model : quiet Ingestor._get_model.
Proof.
  intros w. unfold Ingestor._get_model. destruct (ingestor_model w); [done|].
  revert w. repeat (apply quiet_bind; [|intros ?]);
    try apply quiet_new_object; try (by apply quiet_emit); try apply quiet_ret.
Qed.

Lemma quiet_retriever_get_model : quiet Retriever._get_model.
Proof.
  intros w. unfold Retriever._get_model. destruct (retriever_model w); [done|].
  revert w. repeat (apply quiet_bind; [|intros ?]);
    try apply quiet_new_object; try (by apply quiet_emit); try apply quiet_ret.
Qed.

Lemma quiet_prepare_vectors (E : env) (embeddings : list (list float))
    (filename : string) (chunks : list chunk) :
  forall i vectors, quiet (prepare_vectors E embeddings filename i chunks vectors).
Proof.
  induction chunks as [|c rest IH]; intros i vectors; simpl; [apply quiet_ret|].
  apply quiet_bind; [by intros w|]. intros id.
  destruct (embeddings !! i); [apply IH | apply quiet_raise].
Qed.

Lemma quiet_upsert_loop (vectors : list vector_record) (starts : list Z) :
  quiet (upsert_loop vectors starts).
Proof.
  induction starts as [|start rest IH]; simpl; [apply quiet_ret|].
  apply quiet_bind; [by apply quiet_emit | done].
Qed.

Lemma quiet_ensure_index (E : env) : quiet (_ensure_index E).
Proof.
  intros w. unfold _ensure_index.
  repeat case_match; simpl; by rewrite generator_view_log.
Qed.

Lemma quiet_ingest_pdf (E : env) (fuel : nat) (pdf_path filename : string) :
  quiet (ingest_pdf E fuel pdf_path filename).
Proof.
  unfold ingest_pdf, extract_text_from_pdf, model_encode.
  apply quiet_bind; [apply quiet_bind; [by apply quiet_emit | intros; apply quiet_ret]|].
  intros [|p0 pages]; [apply quiet_ret|].
  destruct (chunk_text _ _ _ _) as [[|c0 chunks]|];
    [apply quiet_ret | | apply quiet_out_of_fuel].
  apply quiet_bind; [apply quiet_ingestor_get_model | intros model].
  apply quiet_bind; [apply quiet_bind; [by apply quiet_emit | intros; apply quiet_ret]|].
  intros embeddings.
  apply quiet_bind; [apply quiet_prepare_vectors | intros vectors].
  apply quiet_bind; [apply quiet_ensure_index | intros _].
  apply quiet_bind; [by apply quiet_emit | intros _].
  apply quiet_bind; [apply quiet_upsert_loop | intros _; apply quiet_ret].
Qed.

Lemma quiet_format_results (results : list (gmap string pyval)) :
  forall chunks, quiet (Retriever.format_results results chunks).
Proof.
  induction results as [|item rest IH]; intros chunks; simpl; [apply quiet_ret|].
  apply quiet_bind; [|intros; apply IH].
  unfold Retriever.item_meta. case_match; apply quiet_ret || apply quiet_raise.
Qed.

Lemma quiet_retrieve (E : env) (question : string) (top_k : Z) :
  quiet (Retriever.retrieve E question top_k).
Proof.
  unfold Retriever.retrieve.
  apply quiet_bind; [apply quiet_retriever_get_model | intros model].
  repeat (apply quiet_bind; [by apply quiet_emit | intros _]).
  apply quiet_format_results.
Qed.

Lemma client_inv_quiet (E : env) (w w' : world) :
  generator_view w' = generator_view w -> client_inv E w -> client_inv E w'.
Proof.
  unfold generator_view, client_inv. intros [= -> -> ->]. done.
Qed.

Lemma clients_created_log (ev : event) (w : world) :
  clients_created (trace (log ev w))
  = clients_created (trace w)
    ++ match ev with EvNewClient obj _ => [obj] | _ => [] end.
Proof.
  unfold log, clients_created. simpl. rewrite omap_app. by destruct ev.
Qed.

Lemma clients_used_log (ev : event) (w : world) :
  clients_used (trace (log ev w))
  = clients_used (trace w)
    ++ match ev with EvGenerate c _ => [c] | _ => [] end.
Proof.
  unfold log, clients_used. simpl. rewrite omap_app. by destruct ev.
Qed.

Lemma retry_loop_view (E : env) (c : nat) (prompt : string) (max_retries : Z)
    (attempts : list Z) :
  forall w,
    generator_client (snd (Generator.retry_loop E c prompt max_retries attempts w))
    = generator_client w
    /\ clients_created (trace (snd (Generator.retry_loop E c prompt max_retries attempts w)))
       = clients_created (trace w)
    /\ exists k : nat,
         clients_used (trace (snd (Generator.retry_loop E c prompt max_retries attempts w)))
         = clients_used (trace w) ++ replicate k c.
Proof.
  induction attempts as [|attempt rest IH]; intros w.
  - simpl. split; [done|split; [done|]]. exists 0%nat. by rewrite app_nil_r.
  - set (w1 := log (EvGenerate c prompt)
                 (mk_world (ingestor_model w) (retriever_model w) (generator_client w)
                    (next_obj w) (uuid_calls w) (create_calls w) (S (llm_calls w))
                    (trace w))).
    assert (Hstep :
      Generator.retry_loop E c prompt max_retries (attempt :: rest) w
      = match generate_content E (llm_calls w) prompt with
        | LlmResponse text => (Ok text, w1)
        | LlmRaises e =>
            if str_contains "429" (err_str e) && (attempt <? max_retries - 1)
            then Generator.retry_loop E c prompt max_retries rest
                   (log (EvSleep (20 * (attempt + 1))) w1)
            else (Raise (APIError e), w1)
        end).
    { cbn [Generator.retry_loop]. unfold bind, Generator.call_generate_content, emit.
      destruct (generate_content E (llm_calls w) prompt) as [text|e]; [done|].
      by destruct (str_contains "429" (err_str e) && (attempt <? max_retries - 1)). }
    rewrite Hstep. clear Hstep.
    assert (Hw1 : generator_client w1 = generator_client w
                  /\ clients_created (trace w1) = clients_created (trace w)
                  /\ clients_used (trace w1) = clients_used (trace w) ++ [c]).
    { subst w1. rewrite clients_created_log, clients_used_log, app_nil_r. done. }
    destruct Hw1 as (H1 & H2 & H3).
    destruct (generate_content E (llm_calls w) prompt) as [text|e].
    + simpl. split; [done|split; [done|]]. exists 1%nat. done.
    + destruct (str_contains "429" (err_str e) && (attempt <? max_retries - 1)).
      * destruct (IH (log (EvSleep (20 * (attempt + 1))) w1)) as (I1 & I2 & k & I3).
        rewrite I1, I2, I3, clients_created_log, clients_used_log, !app_nil_r.
        change (generator_client (log (EvSleep (20 * (attempt + 1))) w1))
          with (generator_client w1).
        split; [done|split; [done|]]. exists (S k).
        rewrite H3, <- app_assoc. done.
      * simpl. split; [done|split; [done|]]. exists 1%nat. done.
Qed.

Lemma generate_answer_client (E : env) (question : string)
    (chunks : list (gmap string pyval)) (w : world) :
  client_inv E w ->
  Generator.key_rejected (GEMINI_API_KEY E) = false ->
  exists c : nat,
    generator_client (snd (Generator.generate_answer E question chunks w)) = Some c
    /\ clients_created (trace (snd (Generator.generate_answer E question chunks w))) = [c]
    /\ Forall (eq c)
         (clients_used (trace (snd (Generator.generate_answer E question chunks w))))
    /\ (forall c', generator_client w = Some c' -> c' = c).
Proof.
  intros Hinv Hkey. unfold client_inv in Hinv.
  destruct (generator_client w) as [c|] eqn:Hc.
  - destruct Hinv as (_ & Hcreated & Hused). exists c.
    rewrite (generate_answer_with_client E question chunks w w c)
      by (by apply get_client_existing).
    destruct (retry_loop_view E c (Generator._build_prompt E question chunks) 3
                [0; 1; 2] (log EvBuildPrompt w)) as (I1 & I2 & k & I3).
    rewrite I1, I2, I3, clients_created_log, clients_used_log, !app_nil_r.
    change (generator_client (log EvBuildPrompt w)) with (generator_client w).
    split; [done|split; [done|split]].
    + apply Forall_app. split; [done | by apply Forall_replicate].
    + by intros c' [= ->].
  - destruct Hinv as (Hcreated & Hused). exists (next_obj w).
    rewrite (generate_answer_with_client E question chunks w _ _
               (get_client_created E w Hc Hkey)).
    match goal with
    | |- context [Generator.retry_loop E ?c ?p ?m ?a ?w1] =>
        destruct (retry_loop_view E c p m a w1) as (I1 & I2 & k & I3)
    end.
    rewrite I1, I2, I3, clients_created_log, clients_used_log, !app_nil_r.
    unfold clients_created, clients_used. cbn [log generator_client trace].
    rewrite !omap_app.
    fold (clients_created (trace w)). fold (clients_used (trace w)).
    rewrite Hcreated, Hused. simpl.
    split; [done|split; [done|split]]; [by apply Forall_replicate | done].
Qed.

Lemma generate_answer_inv (E : env) (question : string)
    (chunks : list (gmap string pyval)) (w : world) :
  client_inv E w ->
  client_inv E (snd (Generator.generate_answer E question chunks w)).
Proof.
  intros Hinv.
  destruct (Generator.key_rejected (GEMINI_API_KEY E)) eqn:Hkey.
  - assert (generator_client w = None) as Hc.
    { unfold client_inv in Hinv. destruct (generator_client w); [|done].
      destruct Hinv as [? _]. congruence. }
    rewrite (generate_answer_without_client E question chunks w w Generator.key_error)
      by (by apply get_client_rejected).
    done.
  - destruct (generate_answer_client E question chunks w Hinv Hkey)
      as (c & H1 & H2 & H3 & _).
    unfold client_inv. rewrite H1. done.
Qed.

Lemma reachable_client_inv (E : env) (w : world) :
  reachable E w -> client_inv E w.
Proof.
  induction 1 as [|w fuel pdf_path filename _ IH|w question top_k _ IH
                  |w question chunks _ IH|w question _ IH].
  - by split.
  - eapply client_inv_quiet; [apply quiet_ingest_pdf | done].
  - eapply client_inv_quiet; [apply quiet_retrieve | done].
  - by apply generate_answer_inv.
  - unfold Pipeline.ask, bind.
    pose proof (quiet_retrieve E question Retriever.TOP_K w) as Hq.
    destruct (Retriever.retrieve E question Retriever.TOP_K w) as [[sources|e|] w1];
      simpl in Hq; try (eapply client_inv_quiet; [exact Hq | done]).
    pose proof (generate_answer_inv E question sources w1
                  (client_inv_quiet E w w1 Hq IH)) as Hg.
    destruct (Generator.generate_answer E question sources w1) as [[a|e|] w2];
      simpl in *; done.
Qed.

Lemma key_rejected_spec (api_key : option string) :
  Generator.key_rejected api_key = true
  <-> api_key = None \/ api_key = Some "" \/ api_key = Some "your-gemini-api-key-here".
Proof.
  unfold Generator.key_rejected, Generator.placeholder_key.
  destruct api_key as [k|]; [|by split; [left|]].
  rewrite orb_true_iff, !bool_decide_eq_true. split.
  - intros [->| ->]; auto.
  - intros [Hk|[Hk|Hk]]; [discriminate | injection Hk | injection Hk]; auto.
Qed.

(** C8: in every world that a process with a fixed credential can reach,
    if [GEMINI_API_KEY] is missing, empty or the placeholder then
    [generate_answer] raises the [ValueError] and leaves the world as it
    was: no prompt built, no call of the language model, no client.
    Otherwise the world after the call holds a client handle, exactly one
    client has ever been constructed, every call of the language model so
    far went through it, and a handle that existed before the call is the
    same one. *)
Theorem generate_answer_credential_check (E : env) (w : world)
    (question : string) (chunks : list (gmap string pyval)) :
  reachable E w ->
  ((GEMINI_API_KEY E = None \/ GEMINI_API_KEY E = Some ""
    \/ GEMINI_API_KEY E = Some "your-gemini-api-key-here") ->
   Generator.generate_answer E question chunks w
   = (Raise (ValueError "GEMINI_API_KEY is not set. Add your key to the .env file. Get a free key at https://aistudio.google.com"), w))
  /\ (~ (GEMINI_API_KEY E = None \/ GEMINI_API_KEY E = Some ""
         \/ GEMINI_API_KEY E = Some "your-gemini-api-key-here") ->
      exists c : nat,
        generator_client (snd (Generator.generate_answer E question chunks w)) = Some c
        /\ clients_created (trace (snd (Generator.generate_answer E question chunks w))) = [c]
        /\ Forall (eq c)
             (clients_used (trace (snd (Generator.generate_answer E question chunks w))))
        /\ (forall c', generator_client w = Some c' -> c' = c)).
Proof.
  intros Hreach. apply reachable_client_inv in Hreach as Hinv. split.
  - intros Hkey. apply key_rejected_spec in Hkey.
    assert (generator_client w = None) as Hc.
    { unfold client_inv in Hinv. destruct (generator_client w); [|done].
      destruct Hinv as [? _]. congruence. }
    rewrite (generate_answer_without_client E question chunks w w Generator.key_error)
      by (by apply get_client_rejected).
    reflexivity.
  - intros Hkey. apply generate_answer_client; [done|].
    destruct (Generator.key_rejected (GEMINI_API_KEY E)) eqn:Hk; [|done].
    apply key_rejected_spec in Hk. done.
Qed.

Lemma generate_answer_credential_check_witness :
  Generator.generate_answer
    (demo_env [] (Some "your-gemini-api-key-here") (fun _ _ => LlmResponse (Some "")) [])
    "why?" [] fresh
  = (Raise (ValueError "GEMINI_API_KEY is not set. Add your key to the .env file. Get a free key at https://aistudio.google.com"), fresh).
Proof.
  refine (proj1 (generate_answer_credential_check
                   (demo_env [] (Some "your-gemini-api-key-here")
                      (fun _ _ => LlmResponse (Some "")) [])
                   fresh "why?" [] _) _).
  - apply reach_fresh.
  - right. right. reflexivity.
Defined.

(** ** The pipeline on an empty retrieval *)



Lemma generate_answer_first_answer (E : env) (question : string)
    (chunks : list (gmap string pyval)) (w w0 : world) (c : nat)
    (text : option string) :
  Generator._get_client E w = (Ok c, w0) ->
  generate_content E (llm_calls w0) (Generator._build_prompt E question chunks)
  = LlmResponse text ->
  Generator.generate_answer E question chunks w
  = (Ok text,
     after_attempts 1
       [EvBuildPrompt; EvGenerate c (Generator._build_prompt E question chunks)] w0).
Proof. intros Hclient H. run_retry Hclient. Qed.

Lemma client_available (E : env) (w : world) :
  is_Some (generator_client w) \/ Generator.key_rejected (GEMINI_API_KEY E) = false ->
  exists c w0,
    Generator._get_client E w = (Ok c, w0) /\ llm_calls w0 = llm_calls w.
Proof.
  intros Hkey. destruct (generator_client w) as [c|] eqn:Hc.
  - exists c, w. split; [by apply get_client_existing | done].
  - destruct Hkey as [[? [=]]|Hkey].
    eexists _, _. split; [by apply get_client_created | done].
Qed.



(** ** The embedding-model handles *)

Lemma ingestor_model_reused (w : world) (m : nat) :
  ingestor_model w = Some m -> Ingestor._get_model w = (Ok m, w).
Proof. intros H. unfold Ingestor._get_model. by rewrite H. Qed.

Lemma retriever_model_reused (w : world) (m : nat) :
  retriever_model w = Some m -> Retriever._get_model w = (Ok m, w).
Proof. intros H. unfold Retriever._get_model. by rewrite H. Qed.

Lemma format_results_world (results : list (gmap string pyval)) :
  forall chunks w, snd (Retriever.format_results results chunks w) = w.
Proof.
  induction results as [|item rest IH]; intros chunks w; simpl; [done|].
  unfold bind, Retriever.item_meta.
  destruct (Retriever.dict_get item "meta" (PDict ∅)); simpl; done.
Qed.

Lemma retrieve_world (E : env) (question : string) (top_k : Z) (w : world) :
  snd (Retriever.retrieve E question top_k w) = after_retrieve E question top_k w.
Proof. rewrite retrieve_run. apply format_results_world. Qed.

Lemma ingest_pdf_stored (E : env) (fuel : nat) (pdf_path filename : string)
    (w w1 : world) (r : Z) :
  ingest_pdf E fuel pdf_path filename w = (Ok r, w1) -> 0 < r ->
  exists chunks, w1 = after_ingest E pdf_path filename chunks w.
Proof.
  intros Hrun Hr.
  destruct (extract_pages_loop (pdf_pages E pdf_path) 0 []) as [|p0 pages] eqn:Hpages.
  { rewrite ingest_pdf_stops_early in Hrun by (by left). injection Hrun as <- <-. lia. }
  destruct (chunk_text fuel (p0 :: pages) CHUNK_SIZE CHUNK_OVERLAP) as [[|c0 chunks]|] eqn:Hchunks.
  - rewrite ingest_pdf_stops_early in Hrun by (right; by rewrite Hpages).
    injection Hrun as <- <-. lia.
  - pose proof (ingest_pdf_run E fuel pdf_path filename w _ _ Hpages
                  ltac:(done) Hchunks ltac:(done)) as Hstep.
    destruct (status_accepted _).
    + rewrite Hstep in Hrun. injection Hrun as <- <-. by eexists.
    + destruct Hstep as (w'' & Hstep & _). rewrite Hstep in Hrun. discriminate.
  - unfold ingest_pdf, extract_text_from_pdf, bind at 1 2, emit, ret in Hrun.
    rewrite Hpages, Hchunks in Hrun. discriminate.
Qed.

(** C3: in a process that has loaded no model yet, an ingestion that
    stores something followed by a retrieval constructs two embedding
    models: the handle of [ingestor.py] holds the first, the handle of
    [retriever.py] the second, and they are different objects. *)
Theorem model_handle_per_module (E : env) (fuel : nat)
    (pdf_path filename question : string) (top_k : Z) (w w1 : world) (r : Z) :
  ingestor_model w = None -> retriever_model w = None ->
  ingest_pdf E fuel pdf_path filename w = (Ok r, w1) -> 0 < r ->
  let w2 := snd (Retriever.retrieve E question top_k w1) in
  ingestor_model w2 = Some (next_obj w)
  /\ retriever_model w2 = Some (S (next_obj w))
  /\ ingestor_model w2 <> retriever_model w2
  /\ models_loaded (trace w2)
     = models_loaded (trace w) ++ [next_obj w; S (next_obj w)].
Proof.
  intros Him Hrm Hrun Hr w2. subst w2.
  destruct (ingest_pdf_stored _ _ _ _ _ _ _ Hrun Hr) as [chunks ->].
  rewrite retrieve_world. unfold after_retrieve, after_ingest.
  cbn [ingestor_model retriever_model next_obj trace].
  rewrite Him, Hrm. cbn [default].
  split; [done|]. split; [done|]. split; [intros [=]; lia|].
  unfold models_loaded. rewrite !omap_app. simpl.
  assert (omap (fun ev => match ev with EvLoadModel obj => Some obj | _ => None end)
               (map EvUpsert
                  (batches_of (imap (vector_of E filename (uuid_calls w)) chunks)))
          = []) as ->.
  { induction (batches_of _) as [|b bs IH]; simpl; done. }
  simpl. by rewrite <- app_assoc.
Qed.

Lemma model_handle_per_module_witness :
  ingestor_model
    (snd (Retriever.retrieve (demo_env ["hello world"] None (fun _ _ => LlmResponse (Some "")) [])
            "hello?" Retriever.TOP_K
            (snd (ingest_pdf (demo_env ["hello world"] None (fun _ _ => LlmResponse (Some "")) [])
                    20 "a.pdf" "a.pdf" fresh))))
  = Some 0%nat
  /\ retriever_model
       (snd (Retriever.retrieve (demo_env ["hello world"] None (fun _ _ => LlmResponse (Some "")) [])
               "hello?" Retriever.TOP_K
               (snd (ingest_pdf (demo_env ["hello world"] None (fun _ _ => LlmResponse (Some "")) [])
                       20 "a.pdf" "a.pdf" fresh))))
     = Some 1%nat.
Proof.
  destruct (model_handle_per_module
              (demo_env ["hello world"] None (fun _ _ => LlmResponse (Some "")) [])
              20 "a.pdf" "a.pdf" "hello?" Retriever.TOP_K fresh
              (snd (ingest_pdf (demo_env ["hello world"] None (fun _ _ => LlmResponse (Some "")) [])
                      20 "a.pdf" "a.pdf" fresh))
              1 eq_refl eq_refl) as (H1 & H2 & _).
  - vm_compute. reflexivity.
  - lia.
  - split; [exact H1 | exact H2].
Defined.

(* ===================================================================== *)
(** * Further properties *)
(* ===================================================================== *)

(** ** Strings as lists of characters *)

Lemma chars_inj (s t : string) : chars s = chars t -> s = t.
Proof.
  intros H. rewrite <- (string_of_list_ascii_of_string s),
    <- (string_of_list_ascii_of_string t). unfold chars in H. by rewrite H.
Qed.

Lemma chars_append (s t : string) : chars (s +:+ t) = chars s ++ chars t.
Proof. induction s as [|c s IH]; simpl; [done | by rewrite IH]. Qed.

Lemma chars_length (s : string) : length (chars s) = String.length s.
Proof. induction s as [|c s IH]; simpl; [done | by rewrite IH]. Qed.

Lemma len_chars (s : string) : len s = Z.of_nat (length (chars s)).
Proof. unfold len. by rewrite chars_length. Qed.

Lemma chars_substring (s : string) :
  forall n m, chars (String.substring n m s) = take m (drop n (chars s)).
Proof.
  induction s as [|c s IH]; intros [|n] [|m]; simpl; rewrite ?IH; done.
Qed.

(** A slice with bounds [0 <= lo] and [0 <= hi], on characters. *)
Lemma chars_str_slice (s : string) (lo hi : Z) :
  0 <= lo -> 0 <= hi ->
  chars (str_slice s lo hi)
  = take (Z.to_nat hi - Z.to_nat lo) (drop (Z.to_nat lo) (chars s)).
Proof.
  intros Hlo Hhi. unfold str_slice, adjust_index.
  destruct (Z.ltb_spec lo 0); [lia|]. destruct (Z.ltb_spec hi 0); [lia|].
  rewrite chars_substring, len_chars.
  set (l := chars s).
  destruct (Z.le_gt_cases (Z.of_nat (length l)) lo) as [Hbig|Hsmall].
  - rewrite !drop_ge by lia. by rewrite !take_nil.
  - replace (Z.to_nat (lo `min` Z.of_nat (length l))) with (Z.to_nat lo) by lia.
    destruct (Z.le_gt_cases hi (Z.of_nat (length l))).
    + f_equal. lia.
    + rewrite !take_ge; [done | rewrite length_drop; lia | rewrite length_drop; lia].
Qed.

Lemma chars_fold_append (parts : list string) :
  chars (fold_right String.append "" parts) = concat (map chars parts).
Proof.
  induction parts as [|p ps IH]; simpl; [done|]. by rewrite chars_append, IH.
Qed.

(** ** More on the chunker *)

Lemma elem_of_concat {A} (x : A) (ls : list (list A)) :
  x ∈ concat ls <-> exists l, x ∈ l /\ l ∈ ls.
Proof.
  rewrite list_elem_of_In, in_concat. split.
  - intros (l & Hl & Hx). exists l. by rewrite !list_elem_of_In.
  - intros (l & Hx & Hl). exists l. by rewrite <- !list_elem_of_In.
Qed.

Lemma window_chunk_chars (p : page_info) (W O : Z) (i : nat) :
  0 <= O < W ->
  chars (ck_text (window_chunk p W O i))
  = take (Z.to_nat W) (drop (i * Z.to_nat (W - O)) (chars (pg_text p))).
Proof.
  intros HO. unfold window_chunk, window_end, window_start. simpl.
  rewrite chars_str_slice by nia. f_equal; [|f_equal]; nia.
Qed.

Lemma page_windows_elem (p : page_info) (W O : Z) (c : chunk) :
  c ∈ page_windows p W O ->
  exists i, (i < window_count p W O)%nat /\ c = window_chunk p W O i.
Proof.
  unfold page_windows. intros Hc.
  apply list_elem_of_fmap in Hc as (i & -> & Hi).
  apply elem_of_seq in Hi. exists i. split; [lia | done].
Qed.

Lemma window_chunk_piece (p : page_info) (W O : Z) (i : nat) :
  0 <= O < W -> (i < window_count p W O)%nat ->
  exists pre post,
    pg_text p = pre +:+ ck_text (window_chunk p W O i) +:+ post
    /\ 0 < len (ck_text (window_chunk p W O i)) <= W.
Proof.
  intros HO Hi.
  assert (Hs : 0 < W - O) by lia.
  pose proof (window_start_lt p W O Hs i Hi) as Hlt. unfold window_start in Hlt.
  set (a := (i * Z.to_nat (W - O))%nat).
  exists (string_of_list_ascii (take a (chars (pg_text p)))),
    (string_of_list_ascii (drop (a + Z.to_nat W) (chars (pg_text p)))).
  split.
  - apply chars_inj.
    rewrite !chars_append, window_chunk_chars by done. fold a.
    unfold chars at 2 5. rewrite !list_ascii_of_string_of_list_ascii.
    fold (chars (pg_text p)).
    rewrite <- drop_drop, take_drop. by rewrite take_drop.
  - rewrite (len_chars (ck_text _)), window_chunk_chars by done. fold a.
    rewrite length_take, length_drop. rewrite len_chars in Hlt. subst a. nia.
Qed.

(** X3: for [0 <= overlap < chunk_size], every chunk that [chunk_text]
    returns is a non-empty piece of at most [chunk_size] consecutive
    characters of the text of one of the pages, and carries the number of
    that page. *)
Theorem chunk_text_chunks_are_pieces (fuel : nat) (pages : list page_info) (W O : Z) :
  0 <= O < W ->
  Forall (fun p => len (pg_text p) < Z.of_nat fuel) pages ->
  exists chunks,
    chunk_text fuel pages W O = Some chunks
    /\ forall c, c ∈ chunks ->
         exists p pre post,
           p ∈ pages
           /\ ck_page c = pg_page p
           /\ pg_text p = pre +:+ ck_text c +:+ post
           /\ 0 < len (ck_text c) <= W.
Proof.
  intros HO Hfuel. eexists. split.
  { unfold chunk_text. by rewrite chunk_pages_loop_total by (done || lia). }
  intros c Hc. rewrite app_nil_l in Hc.
  apply elem_of_concat in Hc as (cs & Hc & Hcs).
  apply list_elem_of_fmap in Hcs as (p & -> & Hp).
  apply page_windows_elem in Hc as (i & Hi & ->).
  destruct (window_chunk_piece p W O i HO Hi) as (pre & post & Htext & Hlen).
  by exists p, pre, post.
Qed.

Lemma chunk_text_chunks_are_pieces_witness :
  exists chunks,
    chunk_text 11 [mk_page 1 "abcdefghij"] 5 2 = Some chunks
    /\ forall c, c ∈ chunks ->
         exists p pre post,
           p ∈ [mk_page 1 "abcdefghij"]
           /\ ck_page c = pg_page p
           /\ pg_text p = pre +:+ ck_text c +:+ post
           /\ 0 < len (ck_text c) <= 5.
Proof.
  apply (chunk_text_chunks_are_pieces 11 [mk_page 1 "abcdefghij"] 5 2).
  - lia.
  - repeat constructor.
Defined.

Lemma take_windows {A} (l : list A) (W s : nat) (k : nat) :
  take W l ++ concat (map (fun j => take s (drop (W + j * s) l)) (seq 0 k))
  = take (W + k * s) l.
Proof.
  induction k as [|k IH].
  - simpl. by rewrite app_nil_r, Nat.add_0_r.
  - rewrite seq_S, map_app, concat_app, app_assoc, IH. simpl.
    rewrite app_nil_r, take_take_drop. f_equal. lia.
Qed.

(** X4: for [0 <= overlap < chunk_size] the text of a page is got back
    from its chunks: the first chunk followed by every later chunk without
    its first [overlap] characters. *)
Theorem chunk_text_reassembles (fuel : nat) (p : page_info) (W O : Z) :
  0 <= O < W ->
  len (pg_text p) < Z.of_nat fuel ->
  exists chunks,
    chunk_text fuel [p] W O = Some chunks
    /\ reassemble O chunks = pg_text p.
Proof.
  intros HO Hfuel. eexists. split.
  { unfold chunk_text. rewrite chunk_pages_loop_total by (lia || by repeat constructor).
    simpl. by rewrite app_nil_r. }
  assert (Hs : 0 < W - O) by lia.
  pose proof (window_count_spec p W O Hs) as Hn.
  pose proof (ceil_div_bounds (len (pg_text p)) (W - O) (len_nonneg _) Hs) as (H0 & H1 & H2).
  rewrite <- Hn in H1, H2. clear Hn H0.
  unfold page_windows.
  destruct (window_count p W O) as [|n].
  - simpl. apply chars_inj. simpl.
    assert (len (pg_text p) = 0) as HL by (pose proof (len_nonneg (pg_text p)); lia).
    rewrite len_chars in HL. destruct (chars (pg_text p)); [done | simpl in HL; lia].
  - rewrite <- cons_seq, <- fmap_S_seq. cbn [map reassemble].
    apply chars_inj. rewrite chars_append, chars_fold_append.
    rewrite window_chunk_chars by done. simpl (0 * _)%nat. rewrite drop_0.
    change (S <$> seq 0 n) with (map S (seq 0 n)). rewrite !map_map.
    rewrite (map_ext _ (fun j => take (Z.to_nat (W - O))
                                   (drop (Z.to_nat W + j * Z.to_nat (W - O))
                                      (chars (pg_text p))))).
    + rewrite take_windows. apply take_ge. rewrite len_chars in *. nia.
    + intros j. rewrite chars_str_slice by (pose proof (len_nonneg (ck_text (window_chunk p W O (S j)))); lia).
      rewrite window_chunk_chars by done.
      rewrite take_ge.
      2:{ rewrite length_drop, len_chars, window_chunk_chars by done.
          rewrite length_take, length_drop. lia. }
      rewrite skipn_firstn_comm, drop_drop. f_equal; [lia | f_equal; lia].
Qed.

Lemma chunk_text_reassembles_witness :
  exists chunks,
    chunk_text 11 [mk_page 1 "abcdefghij"] 5 2 = Some chunks
    /\ reassemble 2 chunks = "abcdefghij".
Proof.
  apply (chunk_text_reassembles 11 (mk_page 1 "abcdefghij") 5 2); [lia | vm_compute; reflexivity].
Defined.

Lemma chunk_page_loop_acc (text : string) (page W O : Z) (fuel : nat) :
  forall start acc,
    chunk_page_loop fuel text page W O start acc
    = (fun cs => acc ++ cs) <$> chunk_page_loop fuel text page W O start [].
Proof.
  induction fuel as [|fuel IH]; intros start acc; simpl; [done|].
  destruct (start <? len text); simpl; [|by rewrite app_nil_r].
  rewrite (IH _ (acc ++ _)), (IH _ [_]).
  destruct (chunk_page_loop fuel text page W O _ []); simpl; [|done].
  by rewrite <- app_assoc.
Qed.

Lemma chunk_pages_loop_acc (fuel : nat) (W O : Z) (pages : list page_info) :
  forall acc,
    chunk_pages_loop fuel pages W O acc
    = (fun cs => acc ++ cs) <$> chunk_pages_loop fuel pages W O [].
Proof.
  induction pages as [|p ps IH]; intros acc; simpl; [by rewrite app_nil_r|].
  rewrite chunk_page_loop_acc.
  destruct (chunk_page_loop fuel (pg_text p) (pg_page p) W O 0 []) as [cs|]; simpl; [|done].
  rewrite IH, (IH cs).
  destruct (chunk_pages_loop fuel ps W O []); simpl; [|done].
  by rewrite app_assoc.
Qed.

(** X5: chunking goes page by page, for every window length, overlap and
    bound on the iterations: the chunks of [pages1 ++ pages2] are the
    chunks of [pages1] followed by the chunks of [pages2], and the call on
    the whole list returns exactly when both calls return. *)
Theorem chunk_text_app (fuel : nat) (pages1 pages2 : list page_info) (W O : Z) :
  chunk_text fuel (pages1 ++ pages2) W O
  = match chunk_text fuel pages1 W O, chunk_text fuel pages2 W O with
    | Some chunks1, Some chunks2 => Some (chunks1 ++ chunks2)
    | _, _ => None
    end.
Proof.
  unfold chunk_text. induction pages1 as [|p ps IH]; simpl.
  - by destruct (chunk_pages_loop fuel pages2 W O []).
  - destruct (chunk_page_loop fuel (pg_text p) (pg_page p) W O 0 []) as [cs|]; [|done].
    rewrite (chunk_pages_loop_acc _ _ _ (ps ++ pages2)), (chunk_pages_loop_acc _ _ _ ps), IH.
    destruct (chunk_pages_loop fuel ps W O []), (chunk_pages_loop fuel pages2 W O []);
      simpl; try done.
    by rewrite app_assoc.
Qed.

(** ** Text extraction *)

Lemma extract_pages_loop_acc (doc : list string) :
  forall page_num pages,
    extract_pages_loop doc page_num pages
    = pages ++ extract_pages_loop doc page_num [].
Proof.
  induction doc as [|text rest IH]; intros page_num pages; simpl.
  - by rewrite app_nil_r.
  - destruct (strip_nonempty text).
    + rewrite IH, (IH _ [_]). by rewrite <- app_assoc.
    + apply IH.
Qed.

Lemma extract_pages_loop_elem (doc : list string) :
  forall page_num p,
    p ∈ extract_pages_loop doc page_num []
    <-> exists i : nat,
          doc !! i = Some (pg_text p)
          /\ strip_nonempty (pg_text p) = true
          /\ pg_page p = page_num + Z.of_nat i + 1.
Proof.
  induction doc as [|text rest IH]; intros page_num p; simpl.
  - split; [by intros ?%elem_of_nil | by intros (i & ? & _)].
  - destruct (strip_nonempty text) eqn:Htext.
    + rewrite extract_pages_loop_acc, elem_of_app, list_elem_of_singleton, IH. split.
      * intros [->|(i & Hi & Hs & Hp)].
        -- exists 0%nat. simpl. repeat split; [done | lia].
        -- exists (S i). simpl. repeat split; [done | done | lia].
      * intros ([|i] & Hi & Hs & Hp); simpl in Hi.
        -- left. destruct p as [n t]. simpl in *. injection Hi as ->. f_equal. lia.
        -- right. exists i. repeat split; [done | done | lia].
    + rewrite IH. split.
      * intros (i & Hi & Hs & Hp). exists (S i). simpl. repeat split; [done | done | lia].
      * intros ([|i] & Hi & Hs & Hp); simpl in Hi.
        -- injection Hi as ->. congruence.
        -- exists i. repeat split; [done | done | lia].
Qed.

(** X1: the pages that [extract_text_from_pdf] returns are exactly the
    pages of the document whose text is not blank, each with its own text
    and its position in the document counted from 1; blank pages are left
    out and keep their number. *)
Theorem extract_text_from_pdf_pages (E : env) (pdf_path : string) (w : world)
    (p : page_info) :
  exists pages,
    extract_text_from_pdf E pdf_path w = (Ok pages, log (EvOpenPdf pdf_path) w)
    /\ (p ∈ pages
        <-> exists i : nat,
              pdf_pages E pdf_path !! i = Some (pg_text p)
              /\ strip_nonempty (pg_text p) = true
              /\ pg_page p = Z.of_nat i + 1).
Proof.
  eexists. split; [reflexivity|].
  rewrite extract_pages_loop_elem. by setoid_rewrite Z.add_0_l.
Qed.

Lemma extract_pages_loop_sorted (doc : list string) :
  forall page_num,
    StronglySorted Z.lt (map pg_page (extract_pages_loop doc page_num []))
    /\ Forall (fun n => page_num < n) (map pg_page (extract_pages_loop doc page_num [])).
Proof.
  induction doc as [|text rest IH]; intros page_num; simpl.
  - split; constructor.
  - destruct (IH (page_num + 1)) as [Hsorted Hall].
    assert (Forall (fun n => page_num < n)
              (map pg_page (extract_pages_loop rest (page_num + 1) []))) as Hall'.
    { eapply Forall_impl; [exact Hall|]. simpl. lia. }
    destruct (strip_nonempty text).
    + rewrite extract_pages_loop_acc. simpl. split.
      * constructor; [done|]. eapply Forall_impl; [exact Hall|]. simpl. lia.
      * constructor; [lia | done].
    + done.
Qed.

(** X2: [extract_text_from_pdf] returns the pages in document order: their
    numbers are strictly increasing, so no number occurs twice, and there
    are at most as many pages as the document has. *)
Theorem extract_text_from_pdf_ordered (E : env) (pdf_path : string) (w : world) :
  exists pages,
    extract_text_from_pdf E pdf_path w = (Ok pages, log (EvOpenPdf pdf_path) w)
    /\ StronglySorted Z.lt (map pg_page pages)
    /\ (length pages <= length (pdf_pages E pdf_path))%nat.
Proof.
  eexists. split; [reflexivity|]. split.
  - apply extract_pages_loop_sorted.
  - generalize 0. induction (pdf_pages E pdf_path) as [|text rest IH]; intros k; simpl; [done|].
    destruct (strip_nonempty text).
    + rewrite extract_pages_loop_acc. simpl. specialize (IH (k + 1)). lia.
    + specialize (IH (k + 1)). lia.
Qed.

(** ** More on ingestion *)

Lemma strip_nonempty_len (s : string) : strip_nonempty s = true -> 0 < len s.
Proof. destruct s; [discriminate | unfold len; simpl; lia]. Qed.

Lemma extracted_pages_fuel (doc : list string) (fuel : nat) :
  Forall (fun text => len text < Z.of_nat fuel) doc ->
  Forall (fun p => len (pg_text p) < Z.of_nat fuel) (extract_pages_loop doc 0 []).
Proof.
  intros Hdoc. apply Forall_forall. intros p Hp.
  apply extract_pages_loop_elem in Hp as (i & Hi & _).
  rewrite Forall_forall in Hdoc. apply Hdoc. by eapply list_elem_of_lookup_2.
Qed.

Lemma extracted_pages_windows (doc : list string) (p : page_info) :
  p ∈ extract_pages_loop doc 0 [] ->
  (1 <= window_count p CHUNK_SIZE CHUNK_OVERLAP)%nat.
Proof.
  intros Hp. apply extract_pages_loop_elem in Hp as (i & _ & Hs & _).
  apply strip_nonempty_len in Hs.
  pose proof (window_count_spec p CHUNK_SIZE CHUNK_OVERLAP ltac:(reflexivity)) as Hn.
  pose proof (ceil_div_bounds (len (pg_text p)) (CHUNK_SIZE - CHUNK_OVERLAP)
                ltac:(lia) ltac:(reflexivity)) as (_ & H1 & _).
  rewrite <- Hn in H1. change (CHUNK_SIZE - CHUNK_OVERLAP) with 450 in H1. lia.
Qed.

Lemma default_chunks_length (pages : list page_info) :
  length (default_chunks pages)
  = sum_list (map (fun p => window_count p CHUNK_SIZE CHUNK_OVERLAP) pages).
Proof.
  unfold default_chunks. induction pages as [|p ps IH]; simpl; [done|].
  rewrite length_app, IH. unfold page_windows. by rewrite length_map, length_seq.
Qed.

Lemma default_chunks_nonempty (doc : list string) :
  extract_pages_loop doc 0 [] <> [] ->
  default_chunks (extract_pages_loop doc 0 []) <> [].
Proof.
  intros Hne Hnil. apply (f_equal length) in Hnil.
  rewrite default_chunks_length in Hnil. simpl in Hnil.
  destruct (extract_pages_loop doc 0 []) as [|p ps] eqn:Hpages; [done|].
  assert (p ∈ extract_pages_loop doc 0 []) as Hp by (rewrite Hpages; left).
  apply extracted_pages_windows in Hp. simpl in Hnil. lia.
Qed.

(** A document with enough iterations for each of its pages is chunked. *)
Lemma chunk_text_extracted (doc : list string) (fuel : nat) :
  Forall (fun text => len text < Z.of_nat fuel) doc ->
  chunk_text fuel (extract_pages_loop doc 0 []) CHUNK_SIZE CHUNK_OVERLAP
  = Some (default_chunks (extract_pages_loop doc 0 [])).
Proof.
  intros Hdoc. unfold chunk_text.
  rewrite chunk_pages_loop_total; [done | reflexivity | by apply extracted_pages_fuel].
Qed.

Lemma ingest_pdf_accepted (E : env) (fuel : nat) (pdf_path filename : string) (w : world) :
  Forall (fun text => len text < Z.of_nat fuel) (pdf_pages E pdf_path) ->
  extract_pages_loop (pdf_pages E pdf_path) 0 [] <> [] ->
  status_accepted (create_index_status E (create_calls w)) = true ->
  ingest_pdf E fuel pdf_path filename w
  = (Ok (Z.of_nat (length (default_chunks (extract_pages_loop (pdf_pages E pdf_path) 0 [])))),
     after_ingest E pdf_path filename
       (default_chunks (extract_pages_loop (pdf_pages E pdf_path) 0 [])) w).
Proof.
  intros Hfuel Hne Hst.
  pose proof (ingest_pdf_run E fuel pdf_path filename w _ _ eq_refl Hne
                (chunk_text_extracted _ _ Hfuel) (default_chunks_nonempty _ Hne)) as Hrun.
  by rewrite Hst in Hrun.
Qed.

Lemma status_accepted_spec (status : Z) :
  status_accepted status = true <-> status = 409 \/ ~ 400 <= status < 600.
Proof.
  unfold status_accepted.
  rewrite orb_true_iff, negb_true_iff, andb_false_iff, Z.eqb_eq, Z.leb_gt, Z.ltb_ge.
  lia.
Qed.

(** X6: with the configured window of 500 and overlap of 50, enough
    iterations for every page and an index that answers the creation
    request with 409 or with a status outside 400..599, [ingest_pdf]
    returns the number of chunks, which is the sum
    over the non-blank pages of [ceil(L / 450)]; it is 0 exactly when every
    page of the document is blank. *)
Theorem ingest_pdf_returns_chunk_count
    (E : env) (fuel : nat) (pdf_path filename : string) (w : world) :
  Forall (fun text => len text < Z.of_nat fuel) (pdf_pages E pdf_path) ->
  create_index_status E (create_calls w) = 409
  \/ ~ 400 <= create_index_status E (create_calls w) < 600 ->
  exists (r : Z) (w' : world),
    ingest_pdf E fuel pdf_path filename w = (Ok r, w')
    /\ r = Z.of_nat (sum_list (map (fun p => window_count p CHUNK_SIZE CHUNK_OVERLAP)
                                   (extract_pages_loop (pdf_pages E pdf_path) 0 [])))
    /\ (r = 0 <-> Forall (fun text => strip_nonempty text = false) (pdf_pages E pdf_path)).
Proof.
  intros Hfuel Hst. apply status_accepted_spec in Hst.
  assert (Hblank : extract_pages_loop (pdf_pages E pdf_path) 0 [] = []
                   <-> Forall (fun text => strip_nonempty text = false) (pdf_pages E pdf_path)).
  { split.
    - intros Hnil. apply Forall_forall. intros text Htext.
      apply list_elem_of_lookup_1 in Htext as [i Hi].
      destruct (strip_nonempty text) eqn:Hs; [|done].
      assert (mk_page (Z.of_nat i + 1) text ∈ extract_pages_loop (pdf_pages E pdf_path) 0 [])
        as Hin by (apply extract_pages_loop_elem; exists i; simpl; done).
      rewrite Hnil in Hin. by apply elem_of_nil in Hin.
    - intros Hall. destruct (extract_pages_loop _ 0 []) as [|p ps] eqn:Hpages; [done|].
      assert (p ∈ extract_pages_loop (pdf_pages E pdf_path) 0 []) as Hp
        by (rewrite Hpages; left).
      apply extract_pages_loop_elem in Hp as (i & Hi & Hs & _).
      rewrite Forall_forall in Hall.
      rewrite Hall in Hs by (by eapply list_elem_of_lookup_2). discriminate. }
  destruct (extract_pages_loop (pdf_pages E pdf_path) 0 []) as [|p0 ps] eqn:Hpages.
  - exists 0, (log (EvOpenPdf pdf_path) w). split.
    + apply ingest_pdf_stops_early. by left.
    + split; [done|]. split; [intros _; by apply Hblank | done].
  - eexists _, _. split.
    + apply ingest_pdf_accepted; [done | by rewrite Hpages | done].
    + rewrite Hpages, default_chunks_length. split; [done|].
      assert (p0 ∈ extract_pages_loop (pdf_pages E pdf_path) 0 []) as Hp
        by (rewrite Hpages; left).
      apply extracted_pages_windows in Hp. simpl. split; [lia|].
      intros Hall. apply Hblank in Hall. discriminate.
Qed.

Lemma ingest_pdf_returns_chunk_count_witness :
  exists (r : Z) (w' : world),
    ingest_pdf (demo_env ["hello world"; "  "; "bye"] None (fun _ _ => LlmResponse (Some "")) [])
      20 "a.pdf" "a.pdf" fresh = (Ok r, w')
    /\ r = 2.
Proof.
  destruct (ingest_pdf_returns_chunk_count
              (demo_env ["hello world"; "  "; "bye"] None (fun _ _ => LlmResponse (Some "")) [])
              20 "a.pdf" "a.pdf" fresh) as (r & w' & Hrun & Hr & _).
  - repeat constructor.
  - right. simpl. lia.
  - exists r, w'. split; [exact Hrun | exact Hr].
Defined.

(** X7: the batches that a successful [ingest_pdf] upserts hold, put end
    to end, one record per chunk in chunk order; the record of chunk [i]
    has the identifier drawn at the [i]-th call of [uuid4] within the run,
    the embedding of the text of the chunk, and as metadata that text, the
    page number of the chunk and the file name that was passed in. *)
Theorem ingest_pdf_records
    (E : env) (fuel : nat) (pdf_path filename : string) (w : world) :
  Forall (fun text => len text < Z.of_nat fuel) (pdf_pages E pdf_path) ->
  extract_pages_loop (pdf_pages E pdf_path) 0 [] <> [] ->
  create_index_status E (create_calls w) = 409
  \/ ~ 400 <= create_index_status E (create_calls w) < 600 ->
  exists (chunks : list chunk) (batches : list (list vector_record)),
    chunk_text fuel (extract_pages_loop (pdf_pages E pdf_path) 0 [])
      CHUNK_SIZE CHUNK_OVERLAP = Some chunks
    /\ upserts (trace (snd (ingest_pdf E fuel pdf_path filename w)))
       = upserts (trace w) ++ batches
    /\ length (concat batches) = length chunks
    /\ forall (i : nat) (c : chunk), chunks !! i = Some c ->
         exists v, concat batches !! i = Some v
           /\ v_id v = uuid4 E (uuid_calls w + i)
           /\ v_vector v = encode E (ck_text c)
           /\ v_meta v !! "text" = Some (PStr (ck_text c))
           /\ v_meta v !! "page" = Some (PInt (ck_page c))
           /\ v_meta v !! "filename" = Some (PStr filename)
           /\ dom (v_meta v) = {[ "text"; "page"; "filename" ]}.
Proof.
  intros Hfuel Hne Hst. apply status_accepted_spec in Hst.
  set (chunks := default_chunks (extract_pages_loop (pdf_pages E pdf_path) 0 [])).
  exists chunks, (batches_of (imap (vector_of E filename (uuid_calls w)) chunks)).
  split; [by apply chunk_text_extracted|].
  rewrite ingest_pdf_accepted by done. fold chunks.
  split; [|split].
  - unfold after_ingest. cbn [snd trace]. rewrite !upserts_app, upserts_map_EvUpsert.
    by destruct (ingestor_model w).
  - unfold batches_of. rewrite (batches_concat _ _ eq_refl). apply length_imap.
  - intros i c Hc. unfold batches_of. rewrite (batches_concat _ _ eq_refl).
    exists (vector_of E filename (uuid_calls w) i c).
    split; [by rewrite list_lookup_imap, Hc|].
    unfold vector_of. simpl. repeat split; done.
Qed.

Lemma ingest_pdf_records_witness :
  exists (chunks : list chunk) (batches : list (list vector_record)),
    chunk_text 20 [mk_page 1 "hello world"] CHUNK_SIZE CHUNK_OVERLAP = Some chunks
    /\ length (concat batches) = length chunks.
Proof.
  destruct (ingest_pdf_records
              (demo_env ["hello world"] None (fun _ _ => LlmResponse (Some "")) [])
              20 "a.pdf" "a.pdf" fresh) as (chunks & batches & Hc & _ & Hlen & _).
  - repeat constructor.
  - vm_compute. discriminate.
  - right. simpl. lia.
  - exists chunks, batches. split; [exact Hc | exact Hlen].
Defined.

Lemma ingest_pdf_refused_run (E : env) (fuel : nat) (pdf_path filename : string)
    (w : world) (pages : list page_info) (chunks : list chunk) :
  extract_pages_loop (pdf_pages E pdf_path) 0 [] = pages -> pages <> [] ->
  chunk_text fuel pages CHUNK_SIZE CHUNK_OVERLAP = Some chunks -> chunks <> [] ->
  status_accepted (create_index_status E (create_calls w)) = false ->
  ingest_pdf E fuel pdf_path filename w
  = (Raise (HTTPError (create_index_status E (create_calls w))),
     after_refusal E pdf_path chunks w).
Proof.
  intros Hpages Hne Hchunks Hcne Hst.
  destruct pages as [|p0 pages]; [done|].
  destruct chunks as [|c0 chunks]; [done|].
  remember (c0 :: chunks) as cs eqn:Hcs.
  pose proof (prepare_vectors_run E filename cs [] []) as Hprep.
  simpl (length []) in Hprep. simpl ([] ++ _) in Hprep.
  assert (forall w0,
    ingest_pdf E fuel pdf_path filename w0
    = (let! model := _get_model in
       let! embeddings := model_encode E model (map ck_text cs) in
       let! vectors := prepare_vectors E embeddings filename 0 cs [] in
       _ensure_index E ;;
       emit EvGetIndex ;;
       upsert_loop vectors (range 0 (Z.of_nat (length vectors)) BATCH_SIZE) ;;
       ret (Z.of_nat (length vectors))) (log (EvOpenPdf pdf_path) w0)) as ->.
  { intros w0. unfold ingest_pdf, extract_text_from_pdf, bind at 1 2, emit, ret.
    rewrite Hpages, Hchunks, Hcs. reflexivity. }
  unfold status_accepted in Hst. unfold after_refusal.
  destruct w as [im rm gc no uc cc lc tr]. simpl (create_calls _) in *.
  apply orb_false_iff in Hst as [H409 Hrange]. apply negb_false_iff in Hrange.
  destruct im as [m|];
    unfold bind, _get_model, model_encode, _ensure_index, emit, ret;
    simpl; unfold bind, new_object, emit, set_model, ret, log; simpl;
    rewrite Hprep; simpl; rewrite H409, Hrange; simpl;
    rewrite <- ?app_assoc; reflexivity.
Qed.

(** X8: when the index answers the creation request with a 4xx or 5xx
    status other than 409, [ingest_pdf] raises the HTTP error and upserts
    nothing; by then it has loaded the model if it was not loaded, embedded
    every chunk and drawn an identifier for each. *)
Theorem ingest_pdf_index_refused
    (E : env) (fuel : nat) (pdf_path filename : string) (w : world) :
  Forall (fun text => len text < Z.of_nat fuel) (pdf_pages E pdf_path) ->
  extract_pages_loop (pdf_pages E pdf_path) 0 [] <> [] ->
  400 <= create_index_status E (create_calls w) < 600 ->
  create_index_status E (create_calls w) <> 409 ->
  exists chunks w',
    chunk_text fuel (extract_pages_loop (pdf_pages E pdf_path) 0 [])
      CHUNK_SIZE CHUNK_OVERLAP = Some chunks
    /\ ingest_pdf E fuel pdf_path filename w
       = (Raise (HTTPError (create_index_status E (create_calls w))), w')
    /\ upserts (trace w') = upserts (trace w)
    /\ is_Some (ingestor_model w')
    /\ (exists model, EvEncode model (map ck_text chunks) ∈ trace w')
    /\ uuid_calls w' = (uuid_calls w + length chunks)%nat.
Proof.
  intros Hfuel Hne Hrange H409.
  eexists _, _. split; [by apply chunk_text_extracted|]. split.
  - apply (ingest_pdf_refused_run E fuel pdf_path filename w _ _ eq_refl Hne
             (chunk_text_extracted _ _ Hfuel) (default_chunks_nonempty _ Hne)).
    unfold status_accepted. apply orb_false_iff. split.
    + by apply Z.eqb_neq.
    + apply negb_false_iff, andb_true_iff. split; [apply Z.leb_le | apply Z.ltb_lt]; lia.
  - unfold after_refusal. cbn [trace ingestor_model uuid_calls].
    split; [|split; [by eexists|split; [|done]]].
    + rewrite !upserts_app. destruct (ingestor_model w); simpl; by rewrite app_nil_r.
    + eexists. rewrite !elem_of_app. right. right. right. by left.
Qed.

Lemma ingest_pdf_index_refused_witness :
  exists chunks w',
    ingest_pdf (mk_env (fun _ => ["hello world"]) (fun _ => []) (fun _ => "id")
                  (fun _ => 500) (fun _ _ => []) None (fun _ _ => LlmResponse (Some ""))
                  (fun _ => "0.0") (fun _ => "{}"))
      20 "a.pdf" "a.pdf" fresh
    = (Raise (HTTPError 500), w')
    /\ upserts (trace w') = []
    /\ chunks = [mk_chunk "hello world" 1].
Proof.
  destruct (ingest_pdf_index_refused
              (mk_env (fun _ => ["hello world"]) (fun _ => []) (fun _ => "id")
                 (fun _ => 500) (fun _ _ => []) None (fun _ _ => LlmResponse (Some ""))
                 (fun _ => "0.0") (fun _ => "{}"))
              20 "a.pdf" "a.pdf" fresh) as (chunks & w' & Hc & Hrun & Hup & _).
  - repeat constructor.
  - vm_compute. discriminate.
  - simpl. lia.
  - simpl. lia.
  - exists chunks, w'. split; [exact Hrun|]. split; [exact Hup|].
    vm_compute in Hc. by injection Hc as <-.
Defined.

Lemma vector_ids (E : env) (filename : string) (chunks : list chunk) :
  forall first,
    map v_id (imap (vector_of E filename first) chunks)
    = map (uuid4 E) (seq first (length chunks)).
Proof.
  induction chunks as [|c rest IH]; intros first; simpl; [done|].
  rewrite Nat.add_0_r. f_equal. rewrite <- IH. f_equal.
  apply imap_ext. intros j x _. unfold vector_of. simpl. by rewrite Nat.add_succ_r.
Qed.

Lemma vector_contents (E : env) (filename : string) (chunks : list chunk) :
  forall first first',
    map (fun v => (v_vector v, v_meta v)) (imap (vector_of E filename first) chunks)
    = map (fun v => (v_vector v, v_meta v)) (imap (vector_of E filename first') chunks).
Proof.
  induction chunks as [|c rest IH]; intros first first'; simpl; [done|].
  f_equal.
  rewrite (imap_ext (vector_of E filename first ∘ S) (vector_of E filename (S first)))
    by (intros j x _; unfold vector_of; simpl; by rewrite Nat.add_succ_r).
  rewrite (imap_ext (vector_of E filename first' ∘ S) (vector_of E filename (S first')))
    by (intros j x _; unfold vector_of; simpl; by rewrite Nat.add_succ_r).
  apply IH.
Qed.

Lemma after_ingest_upserts (E : env) (pdf_path filename : string)
    (chunks : list chunk) (w : world) :
  concat (upserts (trace (after_ingest E pdf_path filename chunks w)))
  = concat (upserts (trace w)) ++ imap (vector_of E filename (uuid_calls w)) chunks.
Proof.
  unfold after_ingest. cbn [trace]. rewrite !upserts_app, upserts_map_EvUpsert.
  rewrite !concat_app. unfold batches_of. rewrite (batches_concat _ _ eq_refl).
  destruct (ingestor_model w); simpl; done.
Qed.

(** X9: [ingest_pdf] draws fresh identifiers at every run, so ingesting
    the same file twice does not overwrite anything: when [uuid4] never
    repeats, the second run upserts records with the same embeddings and
    metadata as the first, and all the identifiers of the two runs are
    pairwise different. *)
Theorem ingest_pdf_twice_stores_twice
    (E : env) (fuel : nat) (pdf_path filename : string) (w : world) :
  Forall (fun text => len text < Z.of_nat fuel) (pdf_pages E pdf_path) ->
  extract_pages_loop (pdf_pages E pdf_path) 0 [] <> [] ->
  (forall n, create_index_status E n = 409 \/ ~ 400 <= create_index_status E n < 600) ->
  (forall i j, uuid4 E i = uuid4 E j -> i = j) ->
  let w1 := snd (ingest_pdf E fuel pdf_path filename w) in
  let w2 := snd (ingest_pdf E fuel pdf_path filename w1) in
  exists first second : list vector_record,
    concat (upserts (trace w1)) = concat (upserts (trace w)) ++ first
    /\ concat (upserts (trace w2)) = concat (upserts (trace w)) ++ first ++ second
    /\ first <> []
    /\ map (fun v => (v_vector v, v_meta v)) first
       = map (fun v => (v_vector v, v_meta v)) second
    /\ NoDup (map v_id (first ++ second)).
Proof.
  intros Hfuel Hne Hst Hinj w1 w2. subst w1 w2.
  set (chunks := default_chunks (extract_pages_loop (pdf_pages E pdf_path) 0 [])).
  rewrite (ingest_pdf_accepted E fuel pdf_path filename w) by (done || by apply status_accepted_spec).
  cbn [snd]. fold chunks.
  rewrite ingest_pdf_accepted by (done || by apply status_accepted_spec).
  cbn [snd]. fold chunks.
  exists (imap (vector_of E filename (uuid_calls w)) chunks),
    (imap (vector_of E filename (uuid_calls w + length chunks)) chunks).
  rewrite !after_ingest_upserts. split; [done|]. split; [by rewrite <- app_assoc|].
  split; [|split].
  - intros Hnil. apply (f_equal length) in Hnil. rewrite length_imap in Hnil.
    by apply (default_chunks_nonempty _ Hne), length_zero_iff_nil.
  - apply vector_contents.
  - rewrite map_app, !vector_ids, <- map_app, <- seq_app.
    apply NoDup_fmap_2; [|apply NoDup_seq].
    intros i j. apply Hinj.
Qed.

Lemma ingest_pdf_twice_stores_twice_witness :
  exists first second : list vector_record,
    length first = 1%nat /\ length second = 1%nat
    /\ NoDup (map v_id (first ++ second)).
Proof.
  destruct (ingest_pdf_twice_stores_twice
              (demo_env ["hello world"] None (fun _ _ => LlmResponse (Some "")) [])
              20 "a.pdf" "a.pdf" fresh) as (first & second & H1 & H2 & _ & _ & Hnd).
  - repeat constructor.
  - vm_compute. discriminate.
  - intros n. right. simpl. lia.
  - intros i j Hij. unfold demo_env, str_of_int in Hij. simpl in Hij.
    apply (f_equal NilEmpty.int_of_string) in Hij.
    rewrite !NilEmpty.isi in Hij. injection Hij as Hij.
    apply (f_equal Z.of_int) in Hij. rewrite !DecimalZ.of_to in Hij. lia.
  - exists first, second. vm_compute in H1. vm_compute in H2.
    subst first. simpl in H2. injection H2 as <-. 
    split; [reflexivity|]. split; [reflexivity|]. exact Hnd.
Defined.

(** ** More on retrieval *)

(** X10: what [ingest_pdf] writes, [retrieve] reads back.  When the items
    of the query response carry the metadata of records that [ingest_pdf]
    prepared for some chunks, the results of [retrieve] have the text and
    page number of those chunks, the file name given at ingestion and the
    similarity of the item, in the order of the response; no default is
    used. *)
Theorem retrieve_reads_back_ingested (E : env) (question filename : string)
    (top_k : Z) (first : nat) (hits : list (nat * chunk * float)) (w : world) :
  index_query E (encode E question) top_k
  = map (fun '(i, c, s) => stored_item (vector_of E filename first i c) s) hits ->
  fst (Retriever.retrieve E question top_k w)
  = Ok (map (fun '(i, c, s) =>
               {[ "text" := PStr (ck_text c);
                  "page" := PInt (ck_page c);
                  "filename" := PStr filename;
                  "score" := PFloat s ]} : gmap string pyval) hits).
Proof.
  intros Hhits. rewrite retrieve_run, Hhits, format_results_run.
  - simpl. f_equal. rewrite map_map. apply map_ext. intros [[i c] s]. reflexivity.
  - apply Forall_forall. intros item Hitem.
    apply list_elem_of_fmap in Hitem as ([[i c] s] & -> & _). reflexivity.
Qed.

Lemma retrieve_reads_back_ingested_witness :
  fst (Retriever.retrieve
         (demo_env [] None (fun _ _ => LlmResponse (Some ""))
            [stored_item (vector_of (demo_env [] None (fun _ _ => LlmResponse (Some "")) [])
                            "a.pdf" 0 0 (mk_chunk "hello world" 1)) 1%float])
         "hello?" Retriever.TOP_K fresh)
  = Ok [ {[ "text" := PStr "hello world"; "page" := PInt 1;
            "filename" := PStr "a.pdf"; "score" := PFloat 1%float ]} ].
Proof.
  apply (retrieve_reads_back_ingested
           (demo_env [] None (fun _ _ => LlmResponse (Some ""))
              [stored_item (vector_of (demo_env [] None (fun _ _ => LlmResponse (Some "")) [])
                              "a.pdf" 0 0 (mk_chunk "hello world" 1)) 1%float])
           "hello?" "a.pdf" Retriever.TOP_K 0
           [(0%nat, mk_chunk "hello world" 1, 1%float)] fresh).
  reflexivity.
Defined.

Lemma format_results_not_dict (results : list (gmap string pyval)) :
  Exists (fun item => meta_is_dict item = false) results ->
  forall chunks w,
    Retriever.format_results results chunks w = (Raise AttributeError, w).
Proof.
  induction results as [|item rest IH]; intros Hex chunks w; [by inversion Hex|].
  simpl. unfold bind, Retriever.item_meta, Retriever.dict_get.
  destruct (meta_is_dict item) eqn:Hitem.
  - assert (Hrest : Exists (fun item => meta_is_dict item = false) rest).
    { inversion Hex; subst; [congruence | done]. }
    unfold meta_is_dict in Hitem.
    destruct (item !! "meta") as [[]|]; simpl; try discriminate; by apply IH.
  - unfold meta_is_dict in Hitem.
    destruct (item !! "meta") as [[]|]; simpl; try discriminate; done.
Qed.

(** X11: when some item of the query response has under ["meta"] a value
    that is not a dict, [retrieve] raises [AttributeError] and returns no
    result at all, also not for the items before it; the question has been
    embedded and the index queried by then. *)
Theorem retrieve_meta_not_dict (E : env) (question : string) (top_k : Z) (w : world) :
  Exists (fun item => meta_is_dict item = false)
         (index_query E (encode E question) top_k) ->
  Retriever.retrieve E question top_k w
  = (Raise AttributeError, after_retrieve E question top_k w).
Proof.
  intros Hex. rewrite retrieve_run. by apply format_results_not_dict.
Qed.

Lemma retrieve_meta_not_dict_witness :
  Retriever.retrieve
    (demo_env [] None (fun _ _ => LlmResponse (Some ""))
       [ {[ "meta" := PDict {[ "text" := PStr "alpha" ]} ]}; {[ "meta" := PNone ]} ])
    "what?" Retriever.TOP_K fresh
  = (Raise AttributeError,
     after_retrieve
       (demo_env [] None (fun _ _ => LlmResponse (Some ""))
          [ {[ "meta" := PDict {[ "text" := PStr "alpha" ]} ]}; {[ "meta" := PNone ]} ])
       "what?" Retriever.TOP_K fresh).
Proof.
  apply retrieve_meta_not_dict. right. left. reflexivity.
Defined.

(** ** More on generation and the pipeline *)

(** X12: whatever the backend does, a [generate_answer] that has a client
    calls the backend once, twice or three times, always with the same
    prompt and client, sleeps 20 s before a second call and 40 s before a
    third and never longer, and ends with what its last call gave: the
    text of that response, which is [None] for a response without text,
    or the exception of that call raised again.  It never runs off the
    end of the loop. *)
Theorem generate_answer_attempts (E : env) (question : string)
    (chunks : list (gmap string pyval)) (w w0 : world) (c : nat) :
  Generator._get_client E w = (Ok c, w0) ->
  let prompt := Generator._build_prompt E question chunks in
  let backend := fun i : nat => generate_content E (llm_calls w0 + i) prompt in
  let call := EvGenerate c prompt in
  let run := Generator.generate_answer E question chunks w in
  (snd run = after_attempts 1 [EvBuildPrompt; call] w0
   /\ fst run = result_of_outcome (backend 0%nat))
  \/ (snd run = after_attempts 2 [EvBuildPrompt; call; EvSleep 20; call] w0
      /\ fst run = result_of_outcome (backend 1%nat))
  \/ (snd run = after_attempts 3
                  [EvBuildPrompt; call; EvSleep 20; call; EvSleep 40; call] w0
      /\ fst run = result_of_outcome (backend 2%nat)).
Proof.
  intros Hclient prompt backend call run. subst run backend call. cbv beta.
  rewrite (generate_answer_with_client _ _ _ _ _ _ Hclient). fold prompt.
  rewrite !Nat.add_succ_r, !Nat.add_0_r.
  cbn [Generator.retry_loop].
  unfold bind, Generator.call_generate_content, emit, ret, raise.
  cbn [llm_calls log]. unfold after_attempts, result_of_outcome.
  destruct (generate_content E (llm_calls w0) prompt) as [t0|e0]; simpl.
  { left. unfold log. simpl. rewrite <- app_assoc, Nat.add_1_r. done. }
  destruct (str_contains "429" (err_str e0) && (0 <? 3 - 1)); simpl.
  2:{ left. unfold log. simpl. rewrite <- app_assoc, Nat.add_1_r. done. }
  right.
  destruct (generate_content E (S (llm_calls w0)) prompt) as [t1|e1]; simpl.
  { left. unfold log. simpl. rewrite <- !app_assoc. simpl.
    replace (llm_calls w0 + 2)%nat with (S (S (llm_calls w0))) by lia. done. }
  destruct (str_contains "429" (err_str e1) && (1 <? 3 - 1)); simpl.
  2:{ left. unfold log. simpl. rewrite <- !app_assoc. simpl.
      replace (llm_calls w0 + 2)%nat with (S (S (llm_calls w0))) by lia. done. }
  right. change (2 <? 3 - 1) with false.
  destruct (generate_content E (S (S (llm_calls w0))) prompt) as [t2|e2]; simpl;
    rewrite ?andb_false_r; unfold log; simpl; rewrite <- !app_assoc; simpl;
    replace (llm_calls w0 + 3)%nat with (S (S (S (llm_calls w0)))) by lia; done.
Qed.

Lemma generate_answer_attempts_witness :
  Generator.generate_answer (demo_env [] (Some "secret") llm_twice_limited [])
    "why?" [] fresh
  = (Ok (Some "forty-two"),
     after_attempts 3
       [EvBuildPrompt;
        EvGenerate 0 (Generator._build_prompt
                        (demo_env [] (Some "secret") llm_twice_limited []) "why?" []);
        EvSleep 20;
        EvGenerate 0 (Generator._build_prompt
                        (demo_env [] (Some "secret") llm_twice_limited []) "why?" []);
        EvSleep 40;
        EvGenerate 0 (Generator._build_prompt
                        (demo_env [] (Some "secret") llm_twice_limited []) "why?" [])]
       (with_client "secret")).
Proof.
  destruct (generate_answer_attempts
              (demo_env [] (Some "secret") llm_twice_limited [])
              "why?" [] fresh (with_client "secret") 0%nat) as [[H _]|[[H _]|[H1 H2]]].
  - vm_compute. reflexivity.
  - exfalso. vm_compute in H. discriminate.
  - exfalso. vm_compute in H. discriminate.
  - rewrite (surjective_pairing (Generator.generate_answer _ _ _ _)). by rewrite H1, H2.
Defined.

(** X20: the retry schedule, in terms of what the loop tests.  With a
    client at hand, a failure of the first or second call whose message
    has 429 in it is followed by a sleep of 20 s, respectively 40 s, and a
    further call; any other failure, and every failure of the third call,
    is raised again at once; a response ends the loop at once.  So two
    such failures and then a response give that response at the third
    call after sleeps of 20 s and 40 s, and three such failures raise the
    third error after exactly three calls and two sleeps. *)
Theorem generate_answer_retry_schedule (E : env) (question : string)
    (chunks : list (gmap string pyval)) (w w0 : world) (c : nat) :
  Generator._get_client E w = (Ok c, w0) ->
  let prompt := Generator._build_prompt E question chunks in
  let backend := fun i : nat => generate_content E (llm_calls w0 + i) prompt in
  let call := EvGenerate c prompt in
  let run := Generator.generate_answer E question chunks w in
  (forall e0 e1 text,
      backend 0%nat = LlmRaises e0 -> mentions_429 (err_str e0) ->
      backend 1%nat = LlmRaises e1 -> mentions_429 (err_str e1) ->
      backend 2%nat = LlmResponse text ->
      run = (Ok text,
             after_attempts 3
               [EvBuildPrompt; call; EvSleep 20; call; EvSleep 40; call] w0))
  /\ (forall e0 e1 e2,
      backend 0%nat = LlmRaises e0 -> mentions_429 (err_str e0) ->
      backend 1%nat = LlmRaises e1 -> mentions_429 (err_str e1) ->
      backend 2%nat = LlmRaises e2 ->
      run = (Raise (APIError e2),
             after_attempts 3
               [EvBuildPrompt; call; EvSleep 20; call; EvSleep 40; call] w0))
  /\ (forall e0,
      backend 0%nat = LlmRaises e0 -> ~ mentions_429 (err_str e0) ->
      run = (Raise (APIError e0), after_attempts 1 [EvBuildPrompt; call] w0))
  /\ (forall e0 e1,
      backend 0%nat = LlmRaises e0 -> mentions_429 (err_str e0) ->
      backend 1%nat = LlmRaises e1 -> ~ mentions_429 (err_str e1) ->
      run = (Raise (APIError e1),
             after_attempts 2 [EvBuildPrompt; call; EvSleep 20; call] w0))
  /\ (forall text,
      backend 0%nat = LlmResponse text ->
      run = (Ok text, after_attempts 1 [EvBuildPrompt; call] w0))
  /\ (forall e0 text,
      backend 0%nat = LlmRaises e0 -> mentions_429 (err_str e0) ->
      backend 1%nat = LlmResponse text ->
      run = (Ok text,
             after_attempts 2 [EvBuildPrompt; call; EvSleep 20; call] w0)).
Proof.
  intros Hclient prompt backend call run. subst run backend call prompt.
  repeat split; intros; run_retry Hclient.
Qed.

Lemma generate_answer_retry_schedule_witness :
  Generator.generate_answer (demo_env [] (Some "secret") llm_twice_limited [])
    "why?" [] (with_client "secret")
  = (Ok (Some "forty-two"),
     after_attempts 3
       [EvBuildPrompt;
        EvGenerate 0 (Generator._build_prompt
                        (demo_env [] (Some "secret") llm_twice_limited []) "why?" []);
        EvSleep 20;
        EvGenerate 0 (Generator._build_prompt
                        (demo_env [] (Some "secret") llm_twice_limited []) "why?" []);
        EvSleep 40;
        EvGenerate 0 (Generator._build_prompt
                        (demo_env [] (Some "secret") llm_twice_limited []) "why?" [])]
       (with_client "secret")).
Proof.
  refine (proj1 (generate_answer_retry_schedule
                   (demo_env [] (Some "secret") llm_twice_limited [])
                   "why?" [] (with_client "secret") (with_client "secret") 0%nat _)
            rate_limit_error rate_limit_error (Some "forty-two") _ _ _ _ _).
  - reflexivity.
  - reflexivity.
  - exists "", " RESOURCE_EXHAUSTED". reflexivity.
  - reflexivity.
  - exists "", " RESOURCE_EXHAUSTED". reflexivity.
  - reflexivity.
Defined.

Lemma ask_after_retrieve (E : env) (question : string) (w : world) :
  Forall (fun item => meta_is_dict item = true)
         (index_query E (encode E question) Retriever.TOP_K) ->
  Pipeline.ask E question w
  = match Generator.generate_answer E question
            (map result_of (index_query E (encode E question) Retriever.TOP_K))
            (after_retrieve E question Retriever.TOP_K w) with
    | (Ok a, w2) =>
        (Ok (Pipeline.mk_answer a
               (map result_of (index_query E (encode E question) Retriever.TOP_K))), w2)
    | (Raise e, w2) => (Raise e, w2)
    | (OutOfFuel, w2) => (OutOfFuel, w2)
    end.
Proof.
  intros Hwf. unfold Pipeline.ask, bind at 1.
  rewrite retrieve_run, format_results_run by done. simpl. unfold bind, ret.
  by destruct (Generator.generate_answer E question _ _) as [[a|e|] w2].
Qed.

(** X13: [ask] checks the credential only after retrieval.  In a
    reachable world, with a missing, empty or placeholder key and a query
    response that [retrieve] can format, [ask] raises the [ValueError]
    after it has loaded the embedding model if need be, embedded the
    question and queried the index; it calls no language model. *)
Theorem ask_checks_key_after_retrieval (E : env) (question : string) (w : world) :
  reachable E w ->
  GEMINI_API_KEY E = None \/ GEMINI_API_KEY E = Some ""
  \/ GEMINI_API_KEY E = Some "your-gemini-api-key-here" ->
  Forall (fun item => meta_is_dict item = true)
         (index_query E (encode E question) Retriever.TOP_K) ->
  Pipeline.ask E question w
  = (Raise (ValueError "GEMINI_API_KEY is not set. Add your key to the .env file. Get a free key at https://aistudio.google.com"),
     after_retrieve E question Retriever.TOP_K w)
  /\ EvQuery (encode E question) Retriever.TOP_K
     ∈ trace (after_retrieve E question Retriever.TOP_K w)
  /\ clients_used (trace (after_retrieve E question Retriever.TOP_K w))
     = clients_used (trace w).
Proof.
  intros Hreach Hkey Hwf. apply key_rejected_spec in Hkey.
  apply reachable_client_inv in Hreach as Hinv.
  assert (generator_client w = None) as Hc.
  { unfold client_inv in Hinv. destruct (generator_client w); [|done].
    destruct Hinv as [? _]. congruence. }
  split; [|split].
  - rewrite ask_after_retrieve by done.
    rewrite (generate_answer_without_client E question _ _
               (after_retrieve E question Retriever.TOP_K w) Generator.key_error).
    + reflexivity.
    + by apply get_client_rejected.
  - unfold after_retrieve. cbn [trace]. rewrite !elem_of_app. right. right.
    apply elem_of_cons. right. apply elem_of_cons. right. by left.
  - unfold after_retrieve, clients_used. cbn [trace]. rewrite !omap_app.
    destruct (retriever_model w); simpl; by rewrite app_nil_r.
Qed.

Lemma ask_checks_key_after_retrieval_witness :
  Pipeline.ask (demo_env [] None (fun _ _ => LlmResponse (Some "")) demo_hits) "what?" fresh
  = (Raise (ValueError "GEMINI_API_KEY is not set. Add your key to the .env file. Get a free key at https://aistudio.google.com"),
     after_retrieve (demo_env [] None (fun _ _ => LlmResponse (Some "")) demo_hits)
       "what?" Retriever.TOP_K fresh).
Proof.
  refine (proj1 (ask_checks_key_after_retrieval
                   (demo_env [] None (fun _ _ => LlmResponse (Some "")) demo_hits)
                   "what?" fresh _ _ _)).
  - apply reach_fresh.
  - left. reflexivity.
  - repeat constructor.
Defined.

(** X14: a query response that [retrieve] cannot format stops [ask]
    before generation: [ask] raises the [AttributeError] of [retrieve],
    and checks no credential, constructs no client and calls no language
    model. *)
Theorem ask_stops_at_retrieval_error (E : env) (question : string) (w : world) :
  Exists (fun item => meta_is_dict item = false)
         (index_query E (encode E question) Retriever.TOP_K) ->
  Pipeline.ask E question w
  = (Raise AttributeError, after_retrieve E question Retriever.TOP_K w)
  /\ generator_view (snd (Pipeline.ask E question w)) = generator_view w.
Proof.
  intros Hex.
  assert (Hask : Pipeline.ask E question w
                 = (Raise AttributeError, after_retrieve E question Retriever.TOP_K w)).
  { unfold Pipeline.ask, bind at 1.
    by rewrite retrieve_run, format_results_not_dict. }
  split; [exact Hask|]. rewrite Hask. cbn [snd].
  rewrite <- retrieve_world. apply quiet_retrieve.
Qed.

Lemma ask_stops_at_retrieval_error_witness :
  Pipeline.ask (demo_env [] (Some "secret") (fun _ _ => LlmResponse (Some "")) [ {[ "meta" := PNone ]} ])
    "what?" fresh
  = (Raise AttributeError,
     after_retrieve
       (demo_env [] (Some "secret") (fun _ _ => LlmResponse (Some "")) [ {[ "meta" := PNone ]} ])
       "what?" Retriever.TOP_K fresh).
Proof.
  refine (proj1 (ask_stops_at_retrieval_error
                   (demo_env [] (Some "secret") (fun _ _ => LlmResponse (Some ""))
                      [ {[ "meta" := PNone ]} ])
                   "what?" fresh _)).
  left. reflexivity.
Defined.

(** X15: the sources that [ask] returns are the chunks that went into the
    prompt.  When [retrieve] can format the response, a client can be had
    and the backend answers, [ask] returns the text of that answer (a
    string, or [None] for a response without text) together with the
    results of [retrieve], in their order, and the language model was
    called with the prompt built from exactly these results. *)
Theorem ask_sources_are_the_context (E : env) (question : string) (w : world)
    (text : option string) :
  Forall (fun item => meta_is_dict item = true)
         (index_query E (encode E question) Retriever.TOP_K) ->
  is_Some (generator_client w) \/ Generator.key_rejected (GEMINI_API_KEY E) = false ->
  let sources := map result_of (index_query E (encode E question) Retriever.TOP_K) in
  generate_content E (llm_calls w) (Generator._build_prompt E question sources)
  = LlmResponse text ->
  fst (Pipeline.ask E question w) = Ok (Pipeline.mk_answer text sources)
  /\ fst (Retriever.retrieve E question Retriever.TOP_K w) = Ok sources
  /\ exists c,
       clients_used (trace (snd (Pipeline.ask E question w)))
       = clients_used (trace w) ++ [c]
       /\ EvGenerate c (Generator._build_prompt E question sources)
          ∈ trace (snd (Pipeline.ask E question w)).
Proof.
  intros Hwf Hkey sources Htext.
  set (w1 := after_retrieve E question Retriever.TOP_K w).
  destruct (client_available E w1 Hkey) as (c & w0 & Hc & Hn).
  assert (Hw0 : clients_used (trace w0) = clients_used (trace w)).
  { assert (clients_used (trace w1) = clients_used (trace w)) as Hw1.
    { subst w1. unfold after_retrieve, clients_used. cbn [trace]. rewrite !omap_app.
      destruct (retriever_model w); simpl; by rewrite app_nil_r. }
    rewrite <- Hw1. unfold Generator._get_client in Hc.
    destruct (generator_client w1).
    - by injection Hc as _ <-.
    - destruct (Generator.key_rejected (GEMINI_API_KEY E)); [discriminate|].
      injection Hc as _ <-. unfold clients_used. simpl. rewrite omap_app. simpl.
      by rewrite app_nil_r. }
  rewrite ask_after_retrieve by done. fold sources w1.
  rewrite (generate_answer_first_answer E question sources w1 w0 c text Hc)
    by (by rewrite Hn).
  split; [done|]. split; [by rewrite retrieve_run, format_results_run|].
  exists c. cbn [snd]. unfold after_attempts. cbn [trace]. split.
  - rewrite <- Hw0. unfold clients_used. by rewrite omap_app.
  - rewrite elem_of_app. right. apply elem_of_cons. right. by left.
Qed.

Lemma ask_sources_are_the_context_witness :
  fst (Pipeline.ask (demo_env [] (Some "secret") (fun _ _ => LlmResponse (Some "alpha is on page 3"))
                       demo_hits) "what is alpha?" fresh)
  = Ok (Pipeline.mk_answer (Some "alpha is on page 3") (map result_of demo_hits)).
Proof.
  refine (proj1 (ask_sources_are_the_context
                   (demo_env [] (Some "secret") (fun _ _ => LlmResponse (Some "alpha is on page 3"))
                      demo_hits)
                   "what is alpha?" fresh (Some "alpha is on page 3") _ _ _)).
  - repeat constructor.
  - right. vm_compute. reflexivity.
  - reflexivity.
Defined.

(** ** What every operation keeps *)

Section Respects.
Variable R : world -> world -> Prop.
Hypothesis R_refl : forall w, R w w.
Hypothesis R_trans : forall a b c, R a b -> R b c -> R a c.
Hypothesis R_emit : forall ev w, plain_event ev -> R w (log ev w).
Hypothesis R_ingestor_model : respects R Ingestor._get_model.
Hypothesis R_retriever_model : respects R Retriever._get_model.
Hypothesis R_client : forall E, respects R (Generator._get_client E).
Hypothesis R_uuid : forall E, respects R (new_uuid E).
Hypothesis R_ensure_index : forall E, respects R (_ensure_index E).
Hypothesis R_generate :
  forall E c prompt, respects R (Generator.call_generate_content E c prompt).

Lemma respects_ret {A} (a : A) : respects R (ret a).
Proof. intros w. apply R_refl. Qed.

Lemma respects_raise {A} (e : exn) : respects R (@raise A e).
Proof. intros w. apply R_refl. Qed.

Lemma respects_bind {A B} (m : M A) (k : A -> M B) :
  respects R m -> (forall a, respects R (k a)) -> respects R (bind m k).
Proof.
  intros Hm Hk w. unfold bind. specialize (Hm w).
  destruct (m w) as [[a|e|] w']; simpl in *; try done.
  eapply R_trans; [exact Hm | apply Hk].
Qed.

Lemma respects_emit (ev : event) : plain_event ev -> respects R (emit ev).
Proof. intros Hev w. by apply R_emit. Qed.

Lemma respects_prepare_vectors (E : env) (embeddings : list (list float))
    (filename : string) (chunks : list chunk) :
  forall i vectors, respects R (prepare_vectors E embeddings filename i chunks vectors).
Proof.
  induction chunks as [|c rest IH]; intros i vectors; simpl; [apply respects_ret|].
  apply respects_bind; [apply R_uuid | intros id].
  destruct (embeddings !! i); [apply IH | apply respects_raise].
Qed.

Lemma respects_upsert_loop (vectors : list vector_record) (starts : list Z) :
  respects R (upsert_loop vectors starts).
Proof.
  induction starts as [|start rest IH]; simpl; [apply respects_ret|].
  apply respects_bind; [by apply respects_emit | done].
Qed.

Lemma respects_ingest_pdf (E : env) (fuel : nat) (pdf_path filename : string) :
  respects R (ingest_pdf E fuel pdf_path filename).
Proof.
  unfold ingest_pdf, extract_text_from_pdf, model_encode.
  apply respects_bind;
    [apply respects_bind; [by apply respects_emit | intros; apply respects_ret]|].
  intros [|p0 pages]; [apply respects_ret|].
  destruct (chunk_text _ _ _ _) as [[|c0 chunks]|];
    [apply respects_ret | | intros w; apply R_refl].
  apply respects_bind; [apply R_ingestor_model | intros model].
  apply respects_bind;
    [apply respects_bind; [by apply respects_emit | intros; apply respects_ret]|].
  intros embeddings.
  apply respects_bind; [apply respects_prepare_vectors | intros vectors].
  apply respects_bind; [apply R_ensure_index | intros _].
  apply respects_bind; [by apply respects_emit | intros _].
  apply respects_bind; [apply respects_upsert_loop | intros _; apply respects_ret].
Qed.

Lemma respects_format_results (results : list (gmap string pyval)) :
  forall chunks, respects R (Retriever.format_results results chunks).
Proof.
  induction results as [|item rest IH]; intros chunks; simpl; [apply respects_ret|].
  apply respects_bind; [|intros; apply IH].
  unfold Retriever.item_meta. case_match; apply respects_ret || apply respects_raise.
Qed.

Lemma respects_retrieve (E : env) (question : string) (top_k : Z) :
  respects R (Retriever.retrieve E question top_k).
Proof.
  unfold Retriever.retrieve.
  apply respects_bind; [apply R_retriever_model | intros model].
  repeat (apply respects_bind; [by apply respects_emit | intros _]).
  apply respects_format_results.
Qed.

Lemma respects_retry_loop (E : env) (c : nat) (prompt : string) (max_retries : Z)
    (attempts : list Z) :
  respects R (Generator.retry_loop E c prompt max_retries attempts).
Proof.
  induction attempts as [|attempt rest IH]; simpl; [apply respects_ret|].
  apply respects_bind; [apply R_generate | intros [text|msg]]; [apply respects_ret|].
  destruct (_ && _); [|apply respects_raise].
  apply respects_bind; [by apply respects_emit | done].
Qed.

Lemma respects_generate_answer (E : env) (question : string)
    (chunks : list (gmap string pyval)) :
  respects R (Generator.generate_answer E question chunks).
Proof.
  unfold Generator.generate_answer.
  apply respects_bind; [apply R_client | intros client].
  apply respects_bind; [by apply respects_emit | intros _].
  apply respects_retry_loop.
Qed.

Lemma respects_ask (E : env) (question : string) :
  respects R (Pipeline.ask E question).
Proof.
  unfold Pipeline.ask.
  apply respects_bind; [apply respects_retrieve | intros sources].
  apply respects_bind; [apply respects_generate_answer | intros; apply respects_ret].
Qed.

End Respects.

Lemma extends_refl (w : world) : extends w w.
Proof. unfold extends. repeat split; done. Qed.

Lemma extends_trans (a b c : world) : extends a b -> extends b c -> extends a c.
Proof.
  unfold extends.
  intros (T1 & I1 & R1 & C1 & N1 & U1 & K1 & L1) (T2 & I2 & R2 & C2 & N2 & U2 & K2 & L2).
  split; [by etrans|]. repeat split; auto; lia.
Qed.

Lemma extends_log (ev : event) (w : world) : extends w (log ev w).
Proof.
  unfold extends, log. simpl. split; [by apply prefix_app_r|]. repeat split; done.
Qed.

Lemma extends_step (w w' : world) (evs : list event) :
  trace w' = trace w ++ evs ->
  (forall m, ingestor_model w = Some m -> ingestor_model w' = Some m) ->
  (forall m, retriever_model w = Some m -> retriever_model w' = Some m) ->
  (forall c, generator_client w = Some c -> generator_client w' = Some c) ->
  (next_obj w <= next_obj w')%nat -> (uuid_calls w <= uuid_calls w')%nat ->
  (create_calls w <= create_calls w')%nat -> (llm_calls w <= llm_calls w')%nat ->
  extends w w'.
Proof.
  intros Ht. unfold extends. rewrite Ht. intros. split; [by apply prefix_app_r|].
  repeat split; done.
Qed.

Lemma extends_ingestor_model : respects extends Ingestor._get_model.
Proof.
  intros w. unfold Ingestor._get_model.
  destruct (ingestor_model w) eqn:Hm; [apply extends_refl|].
  apply (extends_step _ _ [EvLoadModel (next_obj w)]); simpl; auto; congruence.
Qed.

Lemma extends_retriever_model : respects extends Retriever._get_model.
Proof.
  intros w. unfold Retriever._get_model.
  destruct (retriever_model w) eqn:Hm; [apply extends_refl|].
  apply (extends_step _ _ [EvLoadModel (next_obj w)]); simpl; auto; congruence.
Qed.

Lemma extends_client (E : env) : respects extends (Generator._get_client E).
Proof.
  intros w. unfold Generator._get_client.
  destruct (generator_client w) eqn:Hm; [apply extends_refl|].
  destruct (Generator.key_rejected _); [apply extends_refl|].
  eapply (extends_step _ _ [_]); simpl; auto; congruence.
Qed.

Lemma extends_uuid (E : env) : respects extends (new_uuid E).
Proof. intros w. apply (extends_step _ _ []); simpl; auto. by rewrite app_nil_r. Qed.

Lemma extends_ensure_index (E : env) : respects extends (_ensure_index E).
Proof.
  intros w. unfold _ensure_index.
  repeat case_match; apply (extends_step _ _ [EvCreateIndex]); simpl; auto.
Qed.

Lemma extends_generate (E : env) (c : nat) (prompt : string) :
  respects extends (Generator.call_generate_content E c prompt).
Proof. intros w. apply (extends_step _ _ [EvGenerate c prompt]); simpl; auto. Qed.

(** X16: no operation undoes anything.  After [ingest_pdf], [retrieve],
    [generate_answer] or [ask], whatever they return or raise, the trace
    is the trace before with events added at its end, a handle that held
    a model or a client still holds the same object, and no counter has
    gone back. *)
Theorem operations_only_extend (E : env) (w : world) :
  (forall fuel pdf_path filename,
      extends w (snd (ingest_pdf E fuel pdf_path filename w)))
  /\ (forall question top_k, extends w (snd (Retriever.retrieve E question top_k w)))
  /\ (forall question chunks,
        extends w (snd (Generator.generate_answer E question chunks w)))
  /\ (forall question, extends w (snd (Pipeline.ask E question w))).
Proof.
  split; [|split; [|split]]; intros.
  - apply (respects_ingest_pdf extends extends_refl extends_trans
             (fun ev w _ => extends_log ev w)
             extends_ingestor_model extends_uuid extends_ensure_index).
  - apply (respects_retrieve extends extends_refl extends_trans
             (fun ev w _ => extends_log ev w) extends_retriever_model).
  - apply (respects_generate_answer extends extends_refl extends_trans
             (fun ev w _ => extends_log ev w) extends_client extends_generate).
  - apply (respects_ask extends extends_refl extends_trans
             (fun ev w _ => extends_log ev w)
             extends_retriever_model extends_client extends_generate).
Qed.

Lemma models_loaded_log (ev : event) (w : world) :
  models_loaded (trace (log ev w))
  = models_loaded (trace w)
    ++ match ev with EvLoadModel obj => [obj] | _ => [] end.
Proof.
  unfold log, models_loaded. simpl. rewrite omap_app. by destruct ev.
Qed.

Lemma model_inv_step (w w' : world) :
  models_loaded (trace w') = models_loaded (trace w) ->
  ingestor_model w' = ingestor_model w ->
  retriever_model w' = retriever_model w ->
  (next_obj w <= next_obj w')%nat ->
  model_inv w -> model_inv w'.
Proof.
  unfold model_inv. intros -> -> -> Hn (Hperm & Hall & Hnd).
  split; [done|]. split; [|done].
  eapply Forall_impl; [exact Hall|]. simpl. lia.
Qed.

Lemma model_inv_load (w w' : world) :
  models_loaded (trace w') = models_loaded (trace w) ++ [next_obj w] ->
  next_obj w' = S (next_obj w) ->
  option_list (ingestor_model w') ++ option_list (retriever_model w')
    ≡ₚ next_obj w :: option_list (ingestor_model w) ++ option_list (retriever_model w) ->
  model_inv w -> model_inv w'.
Proof.
  unfold model_inv. intros -> -> Hhandles (Hperm & Hall & Hnd).
  split; [|split].
  - rewrite Hhandles, <- Hperm. by rewrite Permutation_app_comm.
  - apply Forall_app. split.
    + eapply Forall_impl; [exact Hall|]. simpl. lia.
    + repeat constructor.
  - apply NoDup_app. split; [done|]. split; [|apply NoDup_singleton].
    intros m Hm ->%list_elem_of_singleton.
    rewrite Forall_forall in Hall. specialize (Hall _ Hm). lia.
Qed.

Lemma model_inv_ingestor_model :
  respects (fun w w' => model_inv w -> model_inv w') Ingestor._get_model.
Proof.
  intros w. unfold Ingestor._get_model.
  destruct (ingestor_model w) eqn:Hm; [done|].
  apply model_inv_load; simpl; [|done|by rewrite Hm].
  unfold models_loaded. by rewrite omap_app.
Qed.

Lemma model_inv_retriever_model :
  respects (fun w w' => model_inv w -> model_inv w') Retriever._get_model.
Proof.
  intros w. unfold Retriever._get_model.
  destruct (retriever_model w) eqn:Hm; [done|].
  apply model_inv_load; simpl; [|done|].
  - unfold models_loaded. by rewrite omap_app.
  - rewrite Hm, app_nil_r. by rewrite Permutation_app_comm.
Qed.

Lemma model_inv_client (E : env) :
  respects (fun w w' => model_inv w -> model_inv w') (Generator._get_client E).
Proof.
  intros w. unfold Generator._get_client.
  destruct (generator_client w); [done|].
  destruct (Generator.key_rejected _); [done|].
  apply model_inv_step; simpl; try done; [|lia].
  unfold models_loaded. rewrite omap_app. simpl. by rewrite app_nil_r.
Qed.

Lemma model_inv_plain (w : world) (evs : list event) (w' : world) :
  trace w' = trace w ++ evs ->
  models_loaded evs = [] ->
  ingestor_model w' = ingestor_model w ->
  retriever_model w' = retriever_model w ->
  next_obj w' = next_obj w ->
  model_inv w -> model_inv w'.
Proof.
  intros Ht Hevs Hi Hr Hn. apply model_inv_step; try done; [|lia].
  rewrite Ht. unfold models_loaded in *. by rewrite omap_app, Hevs, app_nil_r.
Qed.

(** X17: in every world that a process can reach, at most two embedding
    models have been loaded, no object twice; the loaded models are
    exactly the objects held by the handle of [ingestor.py] and by the
    handle of [retriever.py], and when both handles are set they hold
    different objects. *)
Theorem reachable_models (E : env) (w : world) :
  reachable E w ->
  (length (models_loaded (trace w)) <= 2)%nat
  /\ NoDup (models_loaded (trace w))
  /\ (forall m, m ∈ models_loaded (trace w)
                <-> ingestor_model w = Some m \/ retriever_model w = Some m)
  /\ (forall a b, ingestor_model w = Some a -> retriever_model w = Some b -> a <> b).
Proof.
  intros Hreach.
  assert (Hemit : forall ev w0, plain_event ev -> model_inv w0 -> model_inv (log ev w0)).
  { intros ev w0 Hev. apply (model_inv_plain _ [ev]); try done. by destruct ev. }
  assert (Huuid : forall E0, respects (fun w w' => model_inv w -> model_inv w') (new_uuid E0)).
  { intros E0 w0. apply (model_inv_plain _ []); simpl; try done. by rewrite app_nil_r. }
  assert (Hens : forall E0, respects (fun w w' => model_inv w -> model_inv w') (_ensure_index E0)).
  { intros E0 w0. unfold _ensure_index.
    repeat case_match; apply (model_inv_plain _ [EvCreateIndex]); done. }
  assert (Hgen : forall E0 c prompt,
            respects (fun w w' => model_inv w -> model_inv w')
              (Generator.call_generate_content E0 c prompt)).
  { intros E0 c prompt w0. apply (model_inv_plain _ [EvGenerate c prompt]); done. }
  assert (Hinv : model_inv w).
  { induction Hreach as [|w fuel pdf_path filename _ IH|w question top_k _ IH
                         |w question chunks _ IH|w question _ IH].
    - unfold model_inv. simpl. repeat split; constructor.
    - revert IH. apply (respects_ingest_pdf (fun w w' => model_inv w -> model_inv w'));
        auto using model_inv_ingestor_model.
    - revert IH. apply (respects_retrieve (fun w w' => model_inv w -> model_inv w'));
        auto using model_inv_retriever_model.
    - revert IH. apply (respects_generate_answer (fun w w' => model_inv w -> model_inv w'));
        auto using model_inv_client.
    - revert IH. apply (respects_ask (fun w w' => model_inv w -> model_inv w'));
        auto using model_inv_retriever_model, model_inv_client. }
  destruct Hinv as (Hperm & _ & Hnd).
  split; [|split; [done|split]].
  - rewrite Hperm, length_app.
    destruct (ingestor_model w), (retriever_model w); simpl; lia.
  - intros m. rewrite Hperm, elem_of_app.
    destruct (ingestor_model w), (retriever_model w); simpl;
      rewrite ?list_elem_of_singleton, ?elem_of_nil;
      split; intros [H|H]; try done; simplify_eq; auto.
  - intros a b Ha Hb ->. rewrite Hperm, Ha, Hb in Hnd. simpl in Hnd.
    apply NoDup_cons in Hnd as [Hin _]. apply Hin. by left.
Qed.

Lemma reachable_models_witness :
  NoDup (models_loaded (trace
    (snd (Retriever.retrieve (demo_env ["hello world"] None (fun _ _ => LlmResponse (Some "")) [])
            "hello?" Retriever.TOP_K
            (snd (ingest_pdf (demo_env ["hello world"] None (fun _ _ => LlmResponse (Some "")) [])
                    20 "a.pdf" "a.pdf" fresh)))))).
Proof.
  refine (proj1 (proj2 (reachable_models
                          (demo_env ["hello world"] None (fun _ _ => LlmResponse (Some "")) []) _ _))).
  apply reach_retrieve, reach_ingest, reach_fresh.
Defined.

(** ** From the document to the prompt *)

(** X18: every record that [ingest_pdf] upserts is traceable to its page.
    With enough iterations and an index that accepts the creation request,
    each record of the run carries as text a non-empty piece, of at most
    500 characters, of the text of one page of the document, as page the
    position of that page counted from 1, as file name the name passed in,
    and as vector the embedding of that piece. *)
Theorem ingest_pdf_provenance
    (E : env) (fuel : nat) (pdf_path filename : string) (w : world) :
  Forall (fun text => len text < Z.of_nat fuel) (pdf_pages E pdf_path) ->
  create_index_status E (create_calls w) = 409
  \/ ~ 400 <= create_index_status E (create_calls w) < 600 ->
  exists batches : list (list vector_record),
    upserts (trace (snd (ingest_pdf E fuel pdf_path filename w)))
    = upserts (trace w) ++ batches
    /\ forall v, v ∈ concat batches ->
         exists (i : nat) (t pre post : string),
           pdf_pages E pdf_path !! i = Some (pre +:+ t +:+ post)
           /\ 0 < len t <= 500
           /\ v_meta v !! "text" = Some (PStr t)
           /\ v_meta v !! "page" = Some (PInt (Z.of_nat i + 1))
           /\ v_meta v !! "filename" = Some (PStr filename)
           /\ v_vector v = encode E t.
Proof.
  intros Hfuel Hst. apply status_accepted_spec in Hst.
  destruct (extract_pages_loop (pdf_pages E pdf_path) 0 []) as [|p0 ps] eqn:Hpages.
  { exists []. rewrite ingest_pdf_stops_early by (by left). simpl.
    rewrite upserts_app. simpl. split; [done|]. by intros v ?%elem_of_nil. }
  assert (Hne : extract_pages_loop (pdf_pages E pdf_path) 0 [] <> []) by (by rewrite Hpages).
  clear Hpages.
  set (chunks := default_chunks (extract_pages_loop (pdf_pages E pdf_path) 0 [])).
  exists (batches_of (imap (vector_of E filename (uuid_calls w)) chunks)).
  rewrite ingest_pdf_accepted by done. fold chunks. split.
  - unfold after_ingest. cbn [snd trace]. rewrite !upserts_app, upserts_map_EvUpsert.
    by destruct (ingestor_model w).
  - intros v Hv. unfold batches_of in Hv. rewrite (batches_concat _ _ eq_refl) in Hv.
    apply list_elem_of_lookup_1 in Hv as [j Hj].
    rewrite list_lookup_imap in Hj.
    destruct (chunks !! j) as [c|] eqn:Hc; [|discriminate].
    simpl in Hj. injection Hj as <-.
    apply list_elem_of_lookup_2 in Hc. subst chunks. unfold default_chunks in Hc.
    apply elem_of_concat in Hc as (cs & Hc & Hcs).
    apply list_elem_of_fmap in Hcs as (p & -> & Hp).
    apply page_windows_elem in Hc as (k & Hk & ->).
    destruct (window_chunk_piece p CHUNK_SIZE CHUNK_OVERLAP k ltac:(done) Hk)
      as (pre & post & Htext & Hlen).
    apply extract_pages_loop_elem in Hp as (i & Hi & _ & Hpage).
    exists i, (ck_text (window_chunk p CHUNK_SIZE CHUNK_OVERLAP k)), pre, post.
    rewrite <- Htext. split; [done|]. split; [done|].
    unfold vector_of. simpl. rewrite Hpage. repeat split; done.
Qed.

Lemma ingest_pdf_provenance_witness :
  exists batches : list (list vector_record),
    upserts (trace (snd (ingest_pdf (demo_env ["hello world"] None (fun _ _ => LlmResponse (Some "")) [])
                           20 "a.pdf" "a.pdf" fresh)))
    = [] ++ batches.
Proof.
  destruct (ingest_pdf_provenance
              (demo_env ["hello world"] None (fun _ _ => LlmResponse (Some "")) [])
              20 "a.pdf" "a.pdf" fresh) as (batches & Hup & _).
  - repeat constructor.
  - right. simpl. lia.
  - exists batches. exact Hup.
Defined.

